(** * solar-calculator-proxy: the CRM tagger and the webhook relay

    A shallow embedding of [api/kajabi-tag.js] and of the two variants of
    the webhook relay, with the JavaScript they rely on written out:
    values as [JSON.parse] produces them, truthiness, the coercions of
    [+], [-] and computed property keys, exceptions, and the handlers'
    effects (the module-level token cache, the clock, [fetch],
    [console.error]) threaded through a state-and-exception monad.

    A handler is run one invocation at a time, on a request whose body
    the platform has already parsed. The upstream services are a
    parameter: any function from the calls made so far, the time and the
    call to an outcome and the time it took. *)

From Stdlib Require Import String Ascii List Bool ZArith Lia.
From Stdlib Require Import PrimFloat.
From Stdlib Require FloatOps FloatAxioms SpecFloat Uint63 DecimalString.
Import ListNotations.
Local Open Scope list_scope.
Local Open Scope string_scope.

Set Implicit Arguments.
#[local] Set Warnings "-register-all".

(** ** JavaScript values and errors *)

Module JS.

(** The values that reach the handlers: what [JSON.parse] returns, and
    [undefined]. Numbers are IEEE doubles, as in the language. An object
    is the list of its own properties in insertion order. *)
Inductive JSValue : Type :=
| JSUndefined
| JSNull
| JSBool (b : bool)
| JSNumber (n : float)
| JSString (s : string)
| JSArray (elems : list JSValue)
| JSObject (props : list (string * JSValue)).

(** A thrown [Error] object: its constructor's name and its [message]. *)
Record JSError : Type := mkError { err_name : string; message : string }.

Definition Error (msg : string) : JSError := mkError "Error" msg.
Definition TypeError (msg : string) : JSError := mkError "TypeError" msg.

(** How an evaluation ends: with a value, or with an exception. *)
Inductive Outcome (A : Type) : Type :=
| Returned (a : A)
| Thrown (e : JSError).
Arguments Returned {A} a.
Arguments Thrown {A} e.

Definition obind {A B} (o : Outcome A) (k : A -> Outcome B) : Outcome B :=
  match o with
  | Returned a => k a
  | Thrown e => Thrown e
  end.

(** The built-ins whose results the handlers only pass on. They belong to
    the JavaScript runtime, not to this repository, and every theorem
    holds whatever they compute. *)
Class Platform : Type := {
  (** [JSON.parse]: [None] is the [SyntaxError]. *)
  JSON_parse : string -> option JSValue;
  (** [encodeURIComponent], on its argument already converted to a string. *)
  encodeURIComponent : string -> string;
  (** [Number.prototype.toString]. *)
  Number_toString : float -> string;
  (** The numeric value of a string (the runtime's StringToNumber). *)
  String_toNumber : string -> float
}.

(** *** Truthiness *)

Definition truthy (v : JSValue) : bool :=
  match v with
  | JSUndefined | JSNull => false
  | JSBool b => b
  | JSNumber n => negb (is_zero n || is_nan n)
  | JSString s => negb (s =? "")
  | JSArray _ | JSObject _ => true
  end.

(** *** Strings *)

(** A string here is a sequence of code units below 256, the first 256
    characters of Unicode. The cased ones among them that have a
    lower-case form are [A]-[Z] (65-90) and the capital letters
    U+00C0-U+00D6 and U+00D8-U+00DE (192-214 and 216-222); the
    lower-case form of each is 32 further on. The multiplication sign
    (215), the sharp s (223), the micro sign (181) and the small letters
    map to themselves. *)
Definition lower_code_unit (c : ascii) : ascii :=
  let n := nat_of_ascii c in
  if ((65 <=? n)%nat && (n <=? 90)%nat)
     || ((192 <=? n)%nat && (n <=? 214)%nat)
     || ((216 <=? n)%nat && (n <=? 222)%nat)
  then ascii_of_nat (n + 32)
  else c.

(** [String.prototype.toLowerCase]: every code unit that has a
    lower-case form is replaced by it. None of these code units has a
    special or context-dependent mapping, so the string is folded unit by
    unit. *)
Fixpoint toLowerCase (s : string) : string :=
  match s with
  | EmptyString => EmptyString
  | String c rest => String (lower_code_unit c) (toLowerCase rest)
  end.

(** [String.prototype.includes]. *)
Fixpoint String_includes (needle s : string) : bool :=
  prefix needle s ||
  match s with
  | EmptyString => false
  | String _ rest => String_includes needle rest
  end.

(** [Array.prototype.includes] for a string argument: some element is
    that very string (SameValueZero never equates a string with a value
    of another type). *)
Definition Array_includes (needle : string) (elems : list JSValue) : bool :=
  existsb (fun v => match v with JSString s => s =? needle | _ => false end) elems.

(** [Array.prototype.find]: the first element the callback accepts, or
    [undefined]; the callback is not run on the elements after it, and an
    exception of the callback ends the search. *)
Fixpoint Array_find (cb : JSValue -> Outcome bool) (elems : list JSValue)
  : Outcome JSValue :=
  match elems with
  | [] => Returned JSUndefined
  | x :: rest =>
      match cb x with
      | Thrown e => Thrown e
      | Returned true => Returned x
      | Returned false => Array_find cb rest
      end
  end.

(** *** Own and inherited properties *)

Fixpoint own_property (props : list (string * JSValue)) (k : string)
  : option JSValue :=
  match props with
  | [] => None
  | (k', v) :: rest => if k' =? k then Some v else own_property rest k
  end.

(** The property names every object literal inherits from
    [Object.prototype]. *)
Definition Object_prototype_keys : list string :=
  [ "constructor"; "__defineGetter__"; "__defineSetter__"; "hasOwnProperty";
    "__lookupGetter__"; "__lookupSetter__"; "isPrototypeOf";
    "propertyIsEnumerable"; "toString"; "valueOf"; "__proto__";
    "toLocaleString" ].

Definition inherited (k : string) : bool :=
  existsb (String.eqb k) Object_prototype_keys.

(** What [obj[k]] finds on an object literal: an own property, a member
    of [Object.prototype] (a function, or for [__proto__] the prototype
    object itself), or nothing. *)
Inductive Lookup : Type :=
| Own (v : JSValue)
| Inherited (k : string)
| Absent.

Definition lookup (props : list (string * JSValue)) (k : string) : Lookup :=
  match own_property props k with
  | Some v => Own v
  | None => if inherited k then Inherited k else Absent
  end.

(** Functions and objects are truthy. *)
Definition truthy_lookup (l : Lookup) : bool :=
  match l with
  | Own v => truthy v
  | Inherited _ => true
  | Absent => false
  end.

(** What [JSON.stringify] makes of a looked-up value placed in an object:
    a function-valued property is left out, as an [undefined] one is, and
    [Object.prototype] has no enumerable property of its own. *)
Definition stringify_view (l : Lookup) : JSValue :=
  match l with
  | Own v => v
  | Inherited k => if k =? "__proto__" then JSObject [] else JSUndefined
  | Absent => JSUndefined
  end.

(** The data properties the handlers read by name. *)
Inductive DataKey : Type :=
| k_email | k_tag | k_data | k_attributes | k_id | k_access_token | k_expires_in.

Definition key_name (k : DataKey) : string :=
  match k with
  | k_email => "email"
  | k_tag => "tag"
  | k_data => "data"
  | k_attributes => "attributes"
  | k_id => "id"
  | k_access_token => "access_token"
  | k_expires_in => "expires_in"
  end.

(** [v.k] for a data key [k]. Reading a property of [undefined] or [null]
    throws. No built-in prototype defines a data key (for
    [Object.prototype] this is [data_key_not_inherited] below), so the
    read sees own properties only, and a string, number, boolean or array
    has none of them. *)
Definition get_prop (v : JSValue) (k : DataKey) : Outcome JSValue :=
  match v with
  | JSUndefined =>
      Thrown (TypeError ("Cannot read properties of undefined (reading '"
                           ++ key_name k ++ "')"))
  | JSNull =>
      Thrown (TypeError ("Cannot read properties of null (reading '"
                           ++ key_name k ++ "')"))
  | JSObject props =>
      match own_property props (key_name k) with
      | Some x => Returned x
      | None => Returned JSUndefined
      end
  | _ => Returned JSUndefined
  end.

(** *** Method calls on a value of unknown type

    A method exists on the values whose prototype defines it. On any
    other value the callee is [undefined], or an own JSON property that
    is not callable, and the call throws a [TypeError]; so does reading
    the method off [undefined] or [null]. The message texts follow V8 in
    outline; nothing depends on them. *)

Definition no_method (v : JSValue) (name : string) : JSError :=
  match v with
  | JSUndefined =>
      TypeError ("Cannot read properties of undefined (reading '" ++ name ++ "')")
  | JSNull =>
      TypeError ("Cannot read properties of null (reading '" ++ name ++ "')")
  | _ => TypeError (name ++ " is not a function")
  end.

(** [v.includes(needle)]: strings and arrays have the method. *)
Definition call_includes (v : JSValue) (needle : string) : Outcome bool :=
  match v with
  | JSString s => Returned (String_includes needle s)
  | JSArray elems => Returned (Array_includes needle elems)
  | _ => Thrown (no_method v "includes")
  end.

(** [v.toLowerCase()]: strings only. *)
Definition call_toLowerCase (v : JSValue) : Outcome string :=
  match v with
  | JSString s => Returned (toLowerCase s)
  | _ => Thrown (no_method v "toLowerCase")
  end.

(** [v.find(cb)]: arrays only. *)
Definition call_find (v : JSValue) (cb : JSValue -> Outcome bool)
  : Outcome JSValue :=
  match v with
  | JSArray elems => Array_find cb elems
  | _ => Thrown (no_method v "find")
  end.

(** *** Coercions *)

Section Coercions.
Context {P : Platform}.

(** ToString. An array joins its elements with commas, [undefined] and
    [null] elements giving the empty string. A plain object answers
    through the inherited [toString] with ["[object Object]"]; when an own
    property named [toString] shadows it (a JSON value, so not callable)
    neither [toString] nor [valueOf] yields a primitive and the
    conversion throws. *)
Fixpoint ToString (v : JSValue) : Outcome string :=
  match v with
  | JSUndefined => Returned "undefined"
  | JSNull => Returned "null"
  | JSBool b => Returned (if b then "true" else "false")
  | JSNumber n => Returned (Number_toString n)
  | JSString s => Returned s
  | JSArray elems =>
      (fix join (l : list JSValue) : Outcome string :=
         match l with
         | [] => Returned ""
         | x :: rest =>
             obind (match x with
                    | JSUndefined | JSNull => Returned ""
                    | _ => ToString x
                    end)
                   (fun s =>
                      match rest with
                      | [] => Returned s
                      | _ :: _ => obind (join rest)
                                    (fun r => Returned (s ++ "," ++ r))
                      end)
         end) elems
  | JSObject props =>
      match own_property props "toString" with
      | Some _ => Thrown (TypeError "Cannot convert object to primitive value")
      | None => Returned "[object Object]"
      end
  end.

(** ToNumber, as the operands of [-] undergo it. *)
Definition ToNumber (v : JSValue) : Outcome float :=
  match v with
  | JSUndefined => Returned nan
  | JSNull => Returned zero
  | JSBool b => Returned (if b then one else zero)
  | JSNumber n => Returned n
  | JSString s => Returned (String_toNumber s)
  | JSArray _ | JSObject _ =>
      obind (ToString v) (fun s => Returned (String_toNumber s))
  end.

(** ToPropertyKey, for a computed member access [obj[v]]. *)
Definition ToPropertyKey (v : JSValue) : Outcome string := ToString v.

End Coercions.

End JS.

Export JS.

(** ** The host: requests, responses, the world and its effects *)

Module Host.

(** The inbound request, as far as the handlers read it. *)
Record Req : Type := mkReq { method : string; body : JSValue }.

(** The body the handler has sent: [res.end()] sends none,
    [res.json(v)] sends [v]. *)
Inductive Sent : Type :=
| EmptyBody
| JsonBody (v : JSValue).

(** The response object [res]: the status code, the headers the handler
    has set on it, and what it has sent, if anything yet. *)
Record Res : Type := mkRes {
  statusCode : Z;
  headers : list (string * string);
  sent : option Sent
}.

(** The response object as the platform hands it to a handler. *)
Definition fresh_res : Res := mkRes 200 [] None.

Definition status (code : Z) (res : Res) : Res :=
  mkRes code (headers res) (sent res).

(** [res.setHeader(name, value)] replaces the header of that name (names
    compare without regard to case) or adds it. *)
Fixpoint set_header (name value : string) (hs : list (string * string))
  : list (string * string) :=
  match hs with
  | [] => [(name, value)]
  | (n, v) :: rest =>
      if toLowerCase n =? toLowerCase name then (name, value) :: rest
      else (n, v) :: set_header name value rest
  end.

Definition setHeader (name value : string) (res : Res) : Res :=
  mkRes (statusCode res) (set_header name value (headers res)) (sent res).

Definition json (v : JSValue) (res : Res) : Res :=
  mkRes (statusCode res) (headers res) (Some (JsonBody v)).

Definition end_ (res : Res) : Res :=
  mkRes (statusCode res) (headers res) (Some EmptyBody).

Fixpoint header (name : string) (hs : list (string * string)) : option string :=
  match hs with
  | [] => None
  | (n, v) :: rest =>
      if toLowerCase n =? toLowerCase name then Some v else header name rest
  end.

(** The body of an outgoing [fetch]: none, a [URLSearchParams] object, or
    [JSON.stringify(v)], kept as the value [v] it serialises. *)
Inductive FetchBody : Type :=
| NoBody
| FormBody (fields : list (string * JSValue))
| JSONBody (v : JSValue).

(** One call of [fetch(url, init)]. *)
Record FetchInit : Type := mkFetch {
  url : string;
  init_method : option string;
  init_headers : list (string * string);
  init_body : FetchBody
}.

(** Reading the body of an upstream response gives its text, or fails
    (the connection breaks half-way). *)
Inductive BodyRead : Type :=
| BodyText (text : string)
| BodyFailed (e : JSError).

Record FetchResponse : Type := mkResponse {
  resp_status : Z;
  resp_body : BodyRead
}.

(** [response.ok]: the status is in the range 200-299. *)
Definition ok (r : FetchResponse) : bool :=
  ((200 <=? resp_status r) && (resp_status r <? 300))%Z.

(** [fetch] resolves with a response or rejects (a network failure). *)
Inductive FetchOutcome : Type :=
| Resolved (r : FetchResponse)
| Rejected (e : JSError).

(** [process.env]: a variable is a string, or unset. *)
Record ProcessEnv : Type := mkEnv {
  KAJABI_CLIENT_ID : option string;
  KAJABI_CLIENT_SECRET : option string;
  KAJABI_SITE_ID : option string;
  KAJABI_TAG_ID_CONTRACTOR : option string;
  KAJABI_TAG_ID_DIY : option string;
  KAJABI_TAG_ID_WAITLIST : option string
}.

Definition env_value (x : option string) : JSValue :=
  match x with
  | Some s => JSString s
  | None => JSUndefined
  end.

(** An argument of [console.error]. *)
Inductive LogArg : Type :=
| LogString (s : string)
| LogError (e : JSError).

(** What persists across the statements of an invocation, and across
    invocations of one process: the two module-level variables of
    [kajabi-tag.js], the clock [Date.now()] reads, the [fetch] calls made
    so far and the lines written by [console.error], both latest first. *)
Record World : Type := mkWorld {
  cachedToken : JSValue;
  tokenExpiresAt : float;
  clock : float;
  fetched : list FetchInit;
  console : list (list LogArg)
}.

(** The world when the module has just been loaded, at time [t]. *)
Definition loaded (t : float) : World := mkWorld JSNull 0%float t [] [].

(** The upstream services and the passing of time: given the calls made
    before, the time of the call and the call itself, how [fetch] settles
    and what the clock shows when it has. *)
Definition Upstream : Type :=
  list FetchInit -> float -> FetchInit -> FetchOutcome * float.

(** Everything a handler runs against. *)
Class Host : Type := {
  host_platform :: Platform;
  env : ProcessEnv;
  upstream : Upstream
}.

(** *** The monad of handler code: state over [World], with exceptions *)

Definition M (A : Type) : Type := World -> Outcome A * World.

Definition ret {A} (a : A) : M A := fun w => (Returned a, w).

Definition throw {A} (e : JSError) : M A := fun w => (Thrown e, w).

Definition bind {A B} (m : M A) (k : A -> M B) : M B :=
  fun w =>
    match m w with
    | (Returned a, w') => k a w'
    | (Thrown e, w') => (Thrown e, w')
    end.

(** [try { m } catch (error) { h error }]. *)
Definition try_catch {A} (m : M A) (h : JSError -> M A) : M A :=
  fun w =>
    match m w with
    | (Returned a, w') => (Returned a, w')
    | (Thrown e, w') => h e w'
    end.

(** A pure evaluation that may throw. *)
Definition lift {A} (o : Outcome A) : M A := fun w => (o, w).

Definition read {A} (field : World -> A) : M A := fun w => (Returned (field w), w).

Definition set_cachedToken (v : JSValue) : M unit :=
  fun w => (Returned tt,
            mkWorld v (tokenExpiresAt w) (clock w) (fetched w) (console w)).

Definition set_tokenExpiresAt (t : float) : M unit :=
  fun w => (Returned tt,
            mkWorld (cachedToken w) t (clock w) (fetched w) (console w)).

Definition Date_now : M float := read clock.

Definition console_error (args : list LogArg) : M unit :=
  fun w => (Returned tt,
            mkWorld (cachedToken w) (tokenExpiresAt w) (clock w) (fetched w)
                    (args :: console w)).

(** [await fetch(url, init)]: the call is recorded, the upstream settles
    it, and time has passed. *)
Definition fetch {H : Host} (call : FetchInit) : M FetchResponse :=
  fun w =>
    let (outcome, t) := upstream (fetched w) (clock w) call in
    let w' := mkWorld (cachedToken w) (tokenExpiresAt w) t
                      (call :: fetched w) (console w) in
    match outcome with
    | Resolved r => (Returned r, w')
    | Rejected e => (Thrown e, w')
    end.

(** [await response.text()]. *)
Definition response_text (r : FetchResponse) : M string :=
  match resp_body r with
  | BodyText s => ret s
  | BodyFailed e => throw e
  end.

(** [await response.json()]: the text, through [JSON.parse]; node-fetch
    reports a text that does not parse as a [FetchError]. *)
Definition response_json {H : Host} (r : FetchResponse) : M JSValue :=
  match resp_body r with
  | BodyText s =>
      match JSON_parse s with
      | Some v => ret v
      | None => throw (mkError "FetchError" "invalid json response body")
      end
  | BodyFailed e => throw e
  end.

Declare Scope js_scope.
Delimit Scope js_scope with js.
Notation "x <- m ;; k" := (bind m (fun x => k))
  (at level 61, m at next level, right associativity) : js_scope.
Notation "m ;;; k" := (bind m (fun _ => k))
  (at level 61, right associativity) : js_scope.

End Host.

Export Host.
Local Open Scope js_scope.

(** ** api/kajabi-tag.js *)

Module KajabiTag.
Section Source.
Context {H : Host}.

(** A [process.env] variable spliced into a string. *)
Definition env_string (x : option string) : string :=
  match x with
  | Some s => s
  | None => "undefined"
  end.

(** The client-credentials exchange of lines 13-21. *)
Definition token_call : FetchInit :=
  mkFetch "https://api.kajabi.com/v1/oauth/token" (Some "POST")
    [("Content-Type", "application/x-www-form-urlencoded")]
    (FormBody [("client_id", env_value (KAJABI_CLIENT_ID env));
               ("client_secret", env_value (KAJABI_CLIENT_SECRET env));
               ("grant_type", JSString "client_credentials")]).

Definition getAccessToken : M JSValue :=
  cached <- read cachedToken ;;
  hit <- (if truthy cached
          then now <- Date_now ;;
               expiry <- read tokenExpiresAt ;;
               ret (now <? expiry)%float
          else ret false) ;;
  if hit then ret cached
  else
    response <- fetch token_call ;;
    if negb (ok response)
    then throw (Error "Failed to get Kajabi access token")
    else
      data <- response_json response ;;
      access_token <- lift (get_prop data k_access_token) ;;
      set_cachedToken access_token ;;;
      now <- Date_now ;;
      expires_in <- lift (get_prop data k_expires_in) ;;
      lifetime <- lift (ToNumber expires_in) ;;
      set_tokenExpiresAt (now + (lifetime - 300) * 1000)%float ;;;
      read cachedToken.

Definition bearer_headers (token : string) : list (string * string) :=
  [("Authorization", "Bearer " ++ token);
   ("Content-Type", "application/vnd.api+json")].

Definition search_call (token query : string) : FetchInit :=
  mkFetch ("https://api.kajabi.com/v1/contacts?filter%5Bsite_id%5D="
             ++ env_string (KAJABI_SITE_ID env)
             ++ "&filter%5Bsearch%5D="
             ++ encodeURIComponent query)
    None (bearer_headers token) NoBody.

(** The callback of [find], lines 55-57:
    [contact.attributes.email.toLowerCase() === email.toLowerCase()]. *)
Definition same_email (email contact : JSValue) : Outcome bool :=
  obind (get_prop contact k_attributes) (fun attributes =>
  obind (get_prop attributes k_email) (fun contact_email =>
  obind (call_toLowerCase contact_email) (fun l =>
  obind (call_toLowerCase email) (fun r =>
  Returned (l =? r))))).

Definition findContactByEmail (token email : JSValue) : M JSValue :=
  query <- lift (ToString email) ;;
  bearer <- lift (ToString token) ;;
  response <- fetch (search_call bearer query) ;;
  if negb (ok response)
  then throw (Error "Failed to search contacts")
  else
    data <- response_json response ;;
    results <- lift (get_prop data k_data) ;;
    found <- lift (call_find results (same_email email)) ;;
    ret (if truthy found then found else JSNull).

Definition create_call (token : string) (email : JSValue) : FetchInit :=
  mkFetch "https://api.kajabi.com/v1/contacts" (Some "POST")
    (bearer_headers token)
    (JSONBody
       (JSObject
          [("data",
            JSObject
              [("type", JSString "contacts");
               ("attributes",
                JSObject [("email", email); ("subscribed", JSBool true)]);
               ("relationships",
                JSObject
                  [("site",
                    JSObject
                      [("data",
                        JSObject
                          [("type", JSString "sites");
                           ("id", env_value (KAJABI_SITE_ID env))])])])])])).

Definition createContact (token email : JSValue) : M JSValue :=
  bearer <- lift (ToString token) ;;
  response <- fetch (create_call bearer email) ;;
  if negb (ok response)
  then errorBody <- response_text response ;;
       throw (Error ("Failed to create contact: " ++ errorBody))
  else response_json response.

Definition tag_call (token contactId : string) (tagId : Lookup) : FetchInit :=
  mkFetch ("https://api.kajabi.com/v1/contacts/" ++ contactId
             ++ "/relationships/tags")
    (Some "POST") (bearer_headers token)
    (JSONBody
       (JSObject
          [("data",
            JSArray
              [JSObject [("type", JSString "contact_tags");
                         ("id", stringify_view tagId)]])])).

Definition addTagToContact (token contactId : JSValue) (tagId : Lookup)
  : M JSValue :=
  id <- lift (ToString contactId) ;;
  bearer <- lift (ToString token) ;;
  response <- fetch (tag_call bearer id tagId) ;;
  if negb (ok response)
  then errorBody <- response_text response ;;
       throw (Error ("Failed to add tag: " ++ errorBody))
  else response_json response.

(** The object literal of lines 149-153. *)
Definition tagMap : list (string * JSValue) :=
  [("contractor", env_value (KAJABI_TAG_ID_CONTRACTOR env));
   ("diy", env_value (KAJABI_TAG_ID_DIY env));
   ("waitlist", env_value (KAJABI_TAG_ID_WAITLIST env))].

Definition method_not_allowed : JSValue :=
  JSObject [("ok", JSBool false); ("error", JSString "Method not allowed")].

Definition valid_email_required : JSValue :=
  JSObject [("ok", JSBool false); ("error", JSString "Valid email required")].

Definition invalid_tag : JSValue :=
  JSObject [("ok", JSBool false);
            ("error", JSString "Invalid tag. Must be: contractor, diy, or waitlist")].

Definition server_error : JSValue :=
  JSObject [("ok", JSBool false); ("error", JSString "Server error")].

Definition ok_true : JSValue := JSObject [("ok", JSBool true)].

(** The three [res.setHeader] calls of lines 131-133. *)
Definition cors (res : Res) : Res :=
  setHeader "Access-Control-Allow-Headers" "Content-Type"
    (setHeader "Access-Control-Allow-Methods" "POST, OPTIONS"
       (setHeader "Access-Control-Allow-Origin" "*" res)).

Definition handler (req : Req) (res : Res) : M Res :=
  if negb (method req =? "POST")
  then ret (json method_not_allowed (status 405 res))
  else
    let res := cors res in
    if method req =? "OPTIONS"
    then ret (end_ (status 200 res))
    else
      try_catch
        (email <- lift (get_prop (body req) k_email) ;;
         tag <- lift (get_prop (body req) k_tag) ;;
         has_at <- (if truthy email
                    then lift (call_includes email "@")
                    else ret false) ;;
         if negb has_at
         then ret (json valid_email_required (status 400 res))
         else
           key <- lift (ToPropertyKey tag) ;;
           let tagId := lookup tagMap key in
           if negb (truthy_lookup tagId)
           then ret (json invalid_tag (status 400 res))
           else
             token <- getAccessToken ;;
             found <- findContactByEmail token email ;;
             contact <- (if negb (truthy found)
                         then created <- createContact token email ;;
                              lift (get_prop created k_data)
                         else ret found) ;;
             contactId <- lift (get_prop contact k_id) ;;
             addTagToContact token contactId tagId ;;;
             ret (json ok_true (status 200 res)))
        (fun error =>
           console_error [LogString "Kajabi API error:";
                          LogString (message error)] ;;;
           ret (json server_error (status 500 res))).

End Source.
End KajabiTag.

(** ** The webhook relay, as first written *)

Module Relay.
Section Source.
Context {H : Host}.

Definition MAKE_WEBHOOK_URL : string :=
  "https://hook.us2.make.com/trcbbqjdbq9965c8kuttcfbb7ratd8ax".

Definition method_not_allowed : JSValue :=
  JSObject [("error", JSString "Method not allowed")].

Definition cors (res : Res) : Res :=
  setHeader "Access-Control-Allow-Headers" "Content-Type"
    (setHeader "Access-Control-Allow-Methods" "POST, OPTIONS"
       (setHeader "Access-Control-Allow-Origin" "*" res)).

(** [fetch(MAKE_WEBHOOK_URL, { method, headers, body: JSON.stringify(req.body) })] *)
Definition webhook_call (req : Req) : FetchInit :=
  mkFetch MAKE_WEBHOOK_URL (Some "POST")
    [("Content-Type", "application/json")] (JSONBody (body req)).

(** The inner [try { JSON.parse(data) } catch (e) { { message: data } }]. *)
Definition interpret (data : string) : JSValue :=
  match JSON_parse data with
  | Some responseData => responseData
  | None => JSObject [("message", JSString data)]
  end.

Definition connect_failed (error : JSError) : JSValue :=
  JSObject [("error", JSString "Failed to connect to Make.com");
            ("details", JSString (message error))].

(** Lines 20-53, the same in both variants. *)
Definition forward (req : Req) (res : Res) : M Res :=
  try_catch
    (response <- fetch (webhook_call req) ;;
     data <- response_text response ;;
     let responseData := interpret data in
     ret (json responseData (status 200 res)))
    (fun error =>
       console_error [LogString "Proxy error:"; LogError error] ;;;
       ret (json (connect_failed error) (status 500 res))).

Definition handler (req : Req) (res : Res) : M Res :=
  if negb (method req =? "POST")
  then ret (json method_not_allowed (status 405 res))
  else
    let res := cors res in
    if method req =? "OPTIONS"
    then ret (end_ (status 200 res))
    else forward req res.

End Source.
End Relay.

(** ** The webhook relay, "FIXED" (lines 56-107 of the same file) *)

Module RelayFixed.
Section Source.
Context {H : Host}.

Definition MAKE_WEBHOOK_URL : string :=
  "https://hook.us2.make.com/trcbbqjdbq9965c8kuttcfbb7ratd8ax".

Definition handler (req : Req) (res : Res) : M Res :=
  let res := setHeader "Access-Control-Allow-Origin" "*" res in
  let res := setHeader "Access-Control-Allow-Methods" "POST, OPTIONS" res in
  let res := setHeader "Access-Control-Allow-Headers" "Content-Type" res in
  if method req =? "OPTIONS"
  then ret (end_ (status 200 res))
  else
    if negb (method req =? "POST")
    then ret (json (JSObject [("error", JSString "Method not allowed")])
                (status 405 res))
    else
      try_catch
        (response <- fetch (mkFetch MAKE_WEBHOOK_URL (Some "POST")
                              [("Content-Type", "application/json")]
                              (JSONBody (body req))) ;;
         data <- response_text response ;;
         let responseData :=
           match JSON_parse data with
           | Some parsed => parsed
           | None => JSObject [("message", JSString data)]
           end in
         ret (json responseData (status 200 res)))
        (fun error =>
           console_error [LogString "Proxy error:"; LogError error] ;;;
           ret (json (JSObject
                        [("error", JSString "Failed to connect to Make.com");
                         ("details", JSString (message error))])
                  (status 500 res))).

End Source.
End RelayFixed.

(** ** A host to run the handlers on

    The examples below run the handlers against this host: a platform
    whose built-ins cover the texts and numbers the examples use, a
    configuration, and an upstream that answers each endpoint with a fixed
    outcome. The theorems do not mention it; they hold for every host. *)

Module Fixture.

Definition quote : ascii := "034"%char.

(** [dq "{'a':1}"] is the text with double quotes in place of the
    apostrophes. *)
Fixpoint dq (s : string) : string :=
  match s with
  | EmptyString => EmptyString
  | String c rest => String (if (c =? "'")%char then quote else c) (dq rest)
  end.

Definition is_digit (c : ascii) : bool :=
  let n := nat_of_ascii c in (48 <=? n)%nat && (n <=? 57)%nat.

Definition is_ws (c : ascii) : bool :=
  let n := nat_of_ascii c in
  (n =? 32)%nat || (n =? 9)%nat || (n =? 10)%nat || (n =? 13)%nat.

Fixpoint skip_ws (s : string) : string :=
  match s with
  | String c rest => if is_ws c then skip_ws rest else s
  | EmptyString => s
  end.

Fixpoint digits (s : string) (acc : Z) : Z * string :=
  match s with
  | String c rest =>
      if is_digit c
      then digits rest (10 * acc + Z.of_nat (nat_of_ascii c - 48))
      else (acc, s)
  | EmptyString => (acc, s)
  end.

Definition float_of_Z (z : Z) : float := of_uint63 (Uint63.of_Z z).

(** A JSON number: an integer literal below 2^63. A fraction or an
    exponent is beyond this platform and is refused. *)
Definition parse_number (s : string) : option (JSValue * string) :=
  let (neg, s1) := match s with
                   | String c rest => if (c =? "-")%char then (true, rest) else (false, s)
                   | EmptyString => (false, s)
                   end in
  match s1 with
  | String c rest =>
      if is_digit c then
        let (n, after) := if (c =? "0")%char then (0%Z, rest) else digits s1 0 in
        let more := match after with
                    | String d _ => (d =? ".")%char || (d =? "e")%char || (d =? "E")%char
                    | EmptyString => false
                    end in
        if more || (2 ^ 63 <=? n)%Z then None
        else Some (JSNumber (if neg then (- float_of_Z n)%float else float_of_Z n), after)
      else None
  | EmptyString => None
  end.

Definition hex_digit (c : ascii) : option nat :=
  let n := nat_of_ascii c in
  if is_digit c then Some (n - 48)
  else if (97 <=? n)%nat && (n <=? 102)%nat then Some (n - 87)
  else if (65 <=? n)%nat && (n <=? 70)%nat then Some (n - 55)
  else None.

Definition escape (c : ascii) : option ascii :=
  if (c =? quote)%char then Some quote
  else if (c =? "\")%char then Some "\"%char
  else if (c =? "/")%char then Some "/"%char
  else if (c =? "b")%char then Some "008"%char
  else if (c =? "f")%char then Some "012"%char
  else if (c =? "n")%char then Some "010"%char
  else if (c =? "r")%char then Some "013"%char
  else if (c =? "t")%char then Some "009"%char
  else None.

(** The characters of a JSON string, after its opening quote. A [\u]
    escape is taken when it names one of the 256 code units of a string
    here. *)
Fixpoint parse_chars (s : string) : option (string * string) :=
  match s with
  | EmptyString => None
  | String c rest =>
      if (c =? quote)%char then Some (EmptyString, rest)
      else if (c =? "\")%char then
        match rest with
        | String e rest' =>
            if (e =? "u")%char then
              match rest' with
              | String a (String b (String x (String y rest'')) ) =>
                  match hex_digit a, hex_digit b, hex_digit x, hex_digit y with
                  | Some 0, Some 0, Some h, Some l =>
                      match parse_chars rest'' with
                      | Some (str, after) =>
                          Some (String (ascii_of_nat (16 * h + l)) str, after)
                      | None => None
                      end
                  | _, _, _, _ => None
                  end
              | _ => None
              end
            else
              match escape e, parse_chars rest' with
              | Some ch, Some (str, after) => Some (String ch str, after)
              | _, _ => None
              end
        | EmptyString => None
        end
      else if (nat_of_ascii c <? 32)%nat then None
      else
        match parse_chars rest with
        | Some (str, after) => Some (String c str, after)
        | None => None
        end
  end.

(** A later member of the same name replaces the value of the earlier
    one, as [JSON.parse] has it. *)
Fixpoint set_member (k : string) (v : JSValue) (props : list (string * JSValue))
  : list (string * JSValue) :=
  match props with
  | [] => [(k, v)]
  | (k', v') :: rest =>
      if k' =? k then (k, v) :: rest else (k', v') :: set_member k v rest
  end.

Definition keyword (kw : string) (v : JSValue) (s : string)
  : option (JSValue * string) :=
  if prefix kw s
  then Some (v, substring (String.length kw) (String.length s - String.length kw) s)
  else None.

Fixpoint parse_value (fuel : nat) (s : string) : option (JSValue * string) :=
  match fuel with
  | O => None
  | S fuel' =>
      match skip_ws s with
      | EmptyString => None
      | String c rest as s' =>
          if (c =? "[")%char then
            match skip_ws rest with
            | String d rest' as inner =>
                if (d =? "]")%char then Some (JSArray [], rest')
                else parse_elements fuel' inner []
            | EmptyString => None
            end
          else if (c =? "{")%char then
            match skip_ws rest with
            | String d rest' as inner =>
                if (d =? "}")%char then Some (JSObject [], rest')
                else parse_members fuel' inner []
            | EmptyString => None
            end
          else if (c =? quote)%char then
            match parse_chars rest with
            | Some (str, after) => Some (JSString str, after)
            | None => None
            end
          else if (c =? "t")%char then keyword "true" (JSBool true) s'
          else if (c =? "f")%char then keyword "false" (JSBool false) s'
          else if (c =? "n")%char then keyword "null" JSNull s'
          else parse_number s'
      end
  end
with parse_elements (fuel : nat) (s : string) (acc : list JSValue)
  : option (JSValue * string) :=
  match fuel with
  | O => None
  | S fuel' =>
      match parse_value fuel' s with
      | Some (v, after) =>
          match skip_ws after with
          | String c rest =>
              if (c =? ",")%char then parse_elements fuel' rest (acc ++ [v])%list
              else if (c =? "]")%char then Some (JSArray (acc ++ [v])%list, rest)
              else None
          | EmptyString => None
          end
      | None => None
      end
  end
with parse_members (fuel : nat) (s : string) (acc : list (string * JSValue))
  : option (JSValue * string) :=
  match fuel with
  | O => None
  | S fuel' =>
      match skip_ws s with
      | String q rest =>
          if (q =? quote)%char then
            match parse_chars rest with
            | Some (k, after) =>
                match skip_ws after with
                | String c rest' =>
                    if (c =? ":")%char then
                      match parse_value fuel' rest' with
                      | Some (v, after') =>
                          match skip_ws after' with
                          | String d rest'' =>
                              if (d =? ",")%char
                              then parse_members fuel' rest'' (set_member k v acc)
                              else if (d =? "}")%char
                              then Some (JSObject (set_member k v acc), rest'')
                              else None
                          | EmptyString => None
                          end
                      | None => None
                      end
                    else None
                | EmptyString => None
                end
            | None => None
            end
          else None
      | EmptyString => None
      end
  end.

(** [JSON.parse] on this platform. The fuel bounds the number of nested
    calls of the parser; no text needs more than twice its length. *)
Definition json_parse (s : string) : option JSValue :=
  match parse_value (2 * String.length s + 2) s with
  | Some (v, rest) =>
      match skip_ws rest with
      | EmptyString => Some v
      | String _ _ => None
      end
  | None => None
  end.

Definition hex_char (n : nat) : ascii :=
  if (n <? 10)%nat then ascii_of_nat (48 + n) else ascii_of_nat (55 + n).

Definition unreserved (c : ascii) : bool :=
  let n := nat_of_ascii c in
  is_digit c
  || ((65 <=? n)%nat && (n <=? 90)%nat)
  || ((97 <=? n)%nat && (n <=? 122)%nat)
  || existsb (Ascii.eqb c)
       ["-"; "_"; "."; "!"; "~"; "*"; "'"; "("; ")"]%char.

Definition percent (n : nat) (rest : string) : string :=
  String "%" (String (hex_char (n / 16)) (String (hex_char (n mod 16)) rest)).

(** [encodeURIComponent]: a code unit outside the unreserved set becomes
    the [%XX] of each byte of its UTF-8 form, one byte below 128 and two
    from there on. *)
Fixpoint encode_uri_component (s : string) : string :=
  match s with
  | EmptyString => EmptyString
  | String c rest =>
      let n := nat_of_ascii c in
      if unreserved c then String c (encode_uri_component rest)
      else if (n <? 128)%nat then percent n (encode_uri_component rest)
      else percent (192 + n / 64)
             (percent (128 + n mod 64) (encode_uri_component rest))
  end.

Definition decimal (z : Z) : string :=
  DecimalString.NilZero.string_of_int (Z.to_int z).

(** [Number.prototype.toString] for the integers below 10^21, which
    JavaScript prints in plain decimal. The examples print no other
    number; this platform answers ["NaN"] for them. *)
Definition number_to_string (n : float) : string :=
  match FloatOps.Prim2SF n with
  | SpecFloat.S754_zero _ => "0"
  | SpecFloat.S754_infinity false => "Infinity"
  | SpecFloat.S754_infinity true => "-Infinity"
  | SpecFloat.S754_nan => "NaN"
  | SpecFloat.S754_finite sign m e =>
      let magnitude :=
        if (0 <=? e)%Z then Some (Z.pos m * 2 ^ e)%Z
        else if (Z.pos m mod 2 ^ (- e) =? 0)%Z then Some (Z.pos m / 2 ^ (- e))%Z
        else None in
      match magnitude with
      | Some z =>
          if (z <? 10 ^ 21)%Z
          then (if sign then "-" else "") ++ decimal z
          else "NaN"
      | None => "NaN"
      end
  end.

(** The numeric value of a string of decimal digits; [NaN] for the
    strings this platform does not read. *)
Definition string_to_number (s : string) : float :=
  match s with
  | EmptyString => 0%float
  | String c _ =>
      if is_digit c then
        match digits s 0 with
        | (n, EmptyString) => if (n <? 2 ^ 63)%Z then float_of_Z n else nan
        | (_, String _ _) => nan
        end
      else nan
  end.

#[export] Instance platform : Platform := {
  JSON_parse := json_parse;
  encodeURIComponent := encode_uri_component;
  Number_toString := number_to_string;
  String_toNumber := string_to_number
}.

Definition config : ProcessEnv :=
  mkEnv (Some "client-1") (Some "s3cret") (Some "site-9")
        (Some "tag-contractor") (Some "tag-diy") (Some "tag-waitlist").

(** An upstream response with a text body. *)
Definition responds (code : Z) (text : string) : FetchOutcome :=
  Resolved (mkResponse code (BodyText text)).

Definition network_down : FetchOutcome :=
  Rejected (mkError "FetchError" "getaddrinfo ENOTFOUND").

(** How each endpoint of the upstream answers. *)
Record Answers : Type := mkAnswers {
  on_token : FetchOutcome;
  on_search : FetchOutcome;
  on_create : FetchOutcome;
  on_tag : FetchOutcome;
  on_webhook : FetchOutcome
}.

(** An upstream that tells the endpoints apart by URL, answers each the
    same way every time, and takes 40 ms over it. *)
Definition answering (a : Answers) : Upstream :=
  fun _ now call =>
    let u := url call in
    ((if u =? "https://api.kajabi.com/v1/oauth/token" then on_token a
      else if u =? "https://api.kajabi.com/v1/contacts" then on_create a
      else if prefix "https://api.kajabi.com/v1/contacts?" u then on_search a
      else if prefix "https://api.kajabi.com/v1/contacts/" u then on_tag a
      else on_webhook a),
     (now + 40)%float).

Definition host (a : Answers) : Host :=
  {| host_platform := platform; env := config; upstream := answering a |}.

Definition token_text : string :=
  dq "{'access_token':'tok-1','token_type':'Bearer','expires_in':3600}".

(** What the search for [anne2@x.com] returns: the fuzzy match
    [anne@x.com], and no exact one. *)
Definition fuzzy_text : string :=
  dq "{'data':[{'id':'17','type':'contacts','attributes':{'email':'anne@x.com'}}]}".

(** What the search for [Foo@Bar.com] returns. *)
Definition exact_text : string :=
  dq "{'data':[{'id':'3','type':'contacts','attributes':{'email':'food@bar.com'}},{'id':'4','type':'contacts','attributes':{'email':'foo@bar.com'}}]}".

Definition created_text : string :=
  dq "{'data':{'id':'18','type':'contacts','attributes':{'email':'anne2@x.com'}}}".

Definition tagged_text : string :=
  dq "{'data':[{'id':'tag-diy','type':'contact_tags'}]}".

(** Every endpoint answers as the CRM does when all is well. *)
Definition healthy : Answers :=
  mkAnswers (responds 200 token_text) (responds 200 fuzzy_text)
            (responds 201 created_text) (responds 200 tagged_text)
            (responds 200 "OK").

Definition post (v : JSValue) : Req := mkReq "POST" v.

Definition tag_request (email tag : string) : Req :=
  post (JSObject [("email", JSString email); ("tag", JSString tag)]).

(** The token endpoint refuses the credentials. *)
Definition unauthorized : Answers :=
  mkAnswers (responds 401 (dq "{'error':'invalid_client'}"))
            (on_search healthy) (on_create healthy) (on_tag healthy)
            (on_webhook healthy).

(** The search finds the contact under another spelling of its email. *)
Definition known : Answers :=
  mkAnswers (on_token healthy) (responds 200 exact_text)
            (on_create healthy) (on_tag healthy) (on_webhook healthy).

(** The contact is created, and then the tag cannot be attached. *)
Definition tag_refused : Answers :=
  mkAnswers (on_token healthy) (on_search healthy) (on_create healthy)
            (responds 422 (dq "{'errors':[{'detail':'unknown tag'}]}"))
            (on_webhook healthy).

(** The webhook cannot be reached. *)
Definition offline : Answers :=
  mkAnswers (on_token healthy) (on_search healthy) (on_create healthy)
            (on_tag healthy) network_down.

(** A process that holds a token good until 3301040, at time 2000. *)
Definition warm : World := mkWorld (JSString "tok-1") 3301040 2000 [] [].

(** The same process at the very instant the token expires. *)
Definition stale : World := mkWorld (JSString "tok-1") 3301040 3301040 [] [].

(** The exchange answers with a lifetime that is no number and cannot
    become one. *)
Definition odd_lifetime : Answers :=
  mkAnswers (responds 200 (dq "{'access_token':'tok-2','expires_in':{'toString':1}}"))
            (on_search healthy) (on_create healthy) (on_tag healthy)
            (on_webhook healthy).

(** The exchange answers without a lifetime. *)
Definition no_lifetime : Answers :=
  mkAnswers (responds 200 (dq "{'access_token':'tok-3'}"))
            (on_search healthy) (on_create healthy) (on_tag healthy)
            (on_webhook healthy).

(** The search returns the contact, and after it entries that are no
    contacts. *)
Definition ragged_text : string :=
  dq "{'data':[{'id':'3','attributes':{'email':'food@bar.com'}},{'id':'4','attributes':{'email':'foo@bar.com'}},null,7]}".

Definition ragged : Answers :=
  mkAnswers (on_token healthy) (responds 200 ragged_text)
            (on_create healthy) (on_tag healthy) (on_webhook healthy).

(** The search returns a contact whose email is [null] before the one
    looked for. *)
Definition broken_text : string :=
  dq "{'data':[{'id':'3','attributes':{'email':'food@bar.com'}},{'id':'5','attributes':{'email':null}},{'id':'4','attributes':{'email':'foo@bar.com'}}]}".

Definition broken : Answers :=
  mkAnswers (on_token healthy) (responds 200 broken_text)
            (on_create healthy) (on_tag healthy) (on_webhook healthy).

(** The tag endpoint answers 204 with no content. *)
Definition no_content : Answers :=
  mkAnswers (on_token healthy) (on_search healthy) (on_create healthy)
            (responds 204 "") (on_webhook healthy).

(** The search returns a contact whose email begins with a small a with
    diaeresis (code unit 228). *)
Definition accented_text : string :=
  dq "{'data':[{'id':'7','type':'contacts','attributes':{'email':'\u00e4nne@x.com'}}]}".

Definition accented : Answers :=
  mkAnswers (on_token healthy) (responds 200 accented_text)
            (on_create healthy) (on_tag healthy) (on_webhook healthy).

(** The same address typed in capitals: a capital A with diaeresis (code
    unit 196), then [NNE@x.com]. *)
Definition ANNE : string := String "196"%char "NNE@x.com".

(** A deployment where the variable of the [diy] tag was never set. *)
Definition partial_config : ProcessEnv :=
  mkEnv (Some "client-1") (Some "s3cret") (Some "site-9")
        (Some "tag-contractor") None (Some "tag-waitlist").

Definition partial_host : Host :=
  {| host_platform := platform; env := partial_config;
     upstream := answering healthy |}.

End Fixture.

(** ** Notions the statements use *)

Import KajabiTag.

(** The cached token is usable: there is one, and the clock is before its
    expiry. *)
Definition cache_hit (w : World) : bool :=
  truthy (cachedToken w) && (clock w <? tokenExpiresAt w)%float.

(** The world after a [fetch] of [call] that the upstream settled at time
    [t]. *)
Definition after_fetch (call : FetchInit) (t : float) (w : World) : World :=
  mkWorld (cachedToken w) (tokenExpiresAt w) t (call :: fetched w) (console w).

(** How a token exchange fails: [fetch] rejects, or the response is not
    ok. *)
Definition exchange_failed (outcome : FetchOutcome) : bool :=
  match outcome with
  | Rejected _ => true
  | Resolved response => negb (ok response)
  end.

(** The world after [console.error] has written [args]. *)
Definition logged (args : list LogArg) (w : World) : World :=
  mkWorld (cachedToken w) (tokenExpiresAt w) (clock w) (fetched w)
          (args :: console w).

(** What the tagger's [catch] writes to the console. *)
Definition error_line (e : JSError) : list LogArg :=
  [LogString "Kajabi API error:"; LogString (message e)].

(** What the relay's [catch] writes to the console. *)
Definition proxy_line (e : JSError) : list LogArg :=
  [LogString "Proxy error:"; LogError e].

(** The tag names the tagger's error message lists. *)
Definition recognized_tags : list string := ["contractor"; "diy"; "waitlist"].

(** A call that creates a contact: a POST to the contacts collection. *)
Definition is_create (call : FetchInit) : bool :=
  (url call =? "https://api.kajabi.com/v1/contacts")
  && match init_method call with
     | Some m => m =? "POST"
     | None => false
     end.

(** The email of a contact of a search result, when it has one. *)
Definition contact_email (contact : JSValue) : option string :=
  match get_prop contact k_attributes with
  | Returned attributes =>
      match get_prop attributes k_email with
      | Returned (JSString s) => Some s
      | _ => None
      end
  | Thrown _ => None
  end.

Definition well_formed (contact : JSValue) : Prop :=
  exists s, contact_email contact = Some s.

(** Case-insensitive exact comparison of a contact's email with [email]. *)
Definition exact_match (email : string) (contact : JSValue) : bool :=
  match contact_email contact with
  | Some s => toLowerCase s =? toLowerCase email
  | None => false
  end.

(** A value with an [includes] method. *)
Definition has_includes (v : JSValue) : bool :=
  match v with
  | JSString _ | JSArray _ => true
  | _ => false
  end.

(** The email field "is missing or does not contain the character [@]",
    read off the request body: there is no body or no such field, or its
    value is not a string with an [@] in it. *)
Definition missing_or_lacks_at (b : JSValue) : bool :=
  match get_prop b k_email with
  | Returned (JSString s) => negb (String_includes "@" s)
  | _ => true
  end.

Section Stages.
Context {H : Host}.

(** Input validation, lines 141-158 of the tagger, on its own: the
    request is accepted with its email and tag id, refused with the body
    of a 400 response, or the validation itself throws. *)
Inductive Validated : Type :=
| Accepted (email : JSValue) (tagId : Lookup)
| Refused (error_body : JSValue)
| Failed (e : JSError).

Definition validate (b : JSValue) : Validated :=
  match get_prop b k_email, get_prop b k_tag with
  | Returned email, Returned tag =>
      match (if truthy email then call_includes email "@" else Returned false) with
      | Returned true =>
          match ToPropertyKey tag with
          | Returned key =>
              if truthy_lookup (lookup tagMap key)
              then Accepted email (lookup tagMap key)
              else Refused invalid_tag
          | Thrown e => Failed e
          end
      | Returned false => Refused valid_email_required
      | Thrown e => Failed e
      end
  | Thrown e, _ => Failed e
  | _, Thrown e => Failed e
  end.

(** Step 3 of the tagger, lines 166-170. *)
Definition create_if_absent (token email found : JSValue) : M JSValue :=
  if negb (truthy found)
  then created <- createContact token email ;; lift (get_prop created k_data)
  else ret found.

(** Step 4, line 173. *)
Definition attach (token contact : JSValue) (tagId : Lookup) : M JSValue :=
  contactId <- lift (get_prop contact k_id) ;;
  addTagToContact token contactId tagId.

(** The four steps of lines 160-173, one after the other. *)
Definition steps (email : JSValue) (tagId : Lookup) : M unit :=
  token <- getAccessToken ;;
  found <- findContactByEmail token email ;;
  contact <- create_if_absent token email found ;;
  attach token contact tagId ;;;
  ret tt.

Inductive Step : Type :=
| TokenAcquisition | ContactSearch | ContactCreation | TagAttachment.

(** The first step that throws when the four are run from [w], each in
    the world the ones before it left; [None] when all that are performed
    return. *)
Definition failed_step (email : JSValue) (tagId : Lookup) (w : World)
  : option Step :=
  match getAccessToken w with
  | (Thrown _, _) => Some TokenAcquisition
  | (Returned token, w1) =>
      match findContactByEmail token email w1 with
      | (Thrown _, _) => Some ContactSearch
      | (Returned found, w2) =>
          match create_if_absent token email found w2 with
          | (Thrown _, _) => Some ContactCreation
          | (Returned contact, w3) =>
              match attach token contact tagId w3 with
              | (Thrown _, _) => Some TagAttachment
              | (Returned _, _) => None
              end
          end
      end
  end.

End Stages.

(** The endpoint a call goes to, told by its URL. *)
Inductive CallKind : Type :=
| TokenCall | SearchCall | CreateCall | TagCall | WebhookCall | OtherCall.

Definition kind_of (call : FetchInit) : CallKind :=
  let u := url call in
  if u =? "https://api.kajabi.com/v1/oauth/token" then TokenCall
  else if u =? "https://api.kajabi.com/v1/contacts" then CreateCall
  else if prefix "https://api.kajabi.com/v1/contacts?" u then SearchCall
  else if prefix "https://api.kajabi.com/v1/contacts/" u then TagCall
  else if u =? Relay.MAKE_WEBHOOK_URL then WebhookCall
  else OtherCall.

(** The orders in which one invocation of the tagger may call the CRM,
    earliest first: at most one token exchange, then at most one search,
    and after a search at most one creation and at most one tag
    attachment, in that order. *)
Definition after_search (kinds : list CallKind) : bool :=
  match kinds with
  | [] | [CreateCall] | [TagCall] | [CreateCall; TagCall] => true
  | _ => false
  end.

Definition after_token (kinds : list CallKind) : bool :=
  match kinds with
  | [] => true
  | SearchCall :: rest => after_search rest
  | _ => false
  end.

Definition well_ordered (kinds : list CallKind) : bool :=
  match kinds with
  | TokenCall :: rest => after_token rest
  | _ => after_token kinds
  end.

(** The five answers of the tagger: a status with its fixed body. *)
Definition tagger_answers : list (Z * JSValue) :=
  [(405%Z, KajabiTag.method_not_allowed);
   (400%Z, valid_email_required);
   (400%Z, invalid_tag);
   (500%Z, server_error);
   (200%Z, ok_true)].

(** The status of a response with the JSON body it sent, if it sent one. *)
Definition answer (r : Res) : option (Z * JSValue) :=
  match sent r with
  | Some (JsonBody v) => Some (statusCode r, v)
  | _ => None
  end.

Section Configuration.
Context {H : Host}.

(** The environment variable behind a recognized tag name; [None] for any
    other key. *)
Definition tag_variable (key : string) : option (option string) :=
  if "contractor" =? key then Some (KAJABI_TAG_ID_CONTRACTOR env)
  else if "diy" =? key then Some (KAJABI_TAG_ID_DIY env)
  else if "waitlist" =? key then Some (KAJABI_TAG_ID_WAITLIST env)
  else None.

(** Every run of the tagger is of one of five kinds: the method is
    refused, the validation refuses or throws, or the four steps are run
    and return or throw. *)
Inductive Run (req : Req) (res : Res) (w : World) : Res -> World -> Prop :=
| RunNotPost :
    method req <> "POST" ->
    Run req res w (json KajabiTag.method_not_allowed (status 405 res)) w
| RunRefused error_body :
    method req = "POST" ->
    validate (body req) = Refused error_body ->
    Run req res w (json error_body (status 400 (KajabiTag.cors res))) w
| RunFailed e :
    method req = "POST" ->
    validate (body req) = Failed e ->
    Run req res w (json server_error (status 500 (KajabiTag.cors res)))
        (logged (error_line e) w)
| RunDone email tagId w' :
    method req = "POST" ->
    validate (body req) = Accepted email tagId ->
    steps email tagId w = (Returned tt, w') ->
    Run req res w (json ok_true (status 200 (KajabiTag.cors res))) w'
| RunThrew email tagId e w' :
    method req = "POST" ->
    validate (body req) = Accepted email tagId ->
    steps email tagId w = (Thrown e, w') ->
    Run req res w (json server_error (status 500 (KajabiTag.cors res)))
        (logged (error_line e) w').

End Configuration.

(** The statuses a relay answers with. *)
Definition relay_statuses : list Z := [200%Z; 405%Z; 500%Z].

(** * Properties *)

Unset Implicit Arguments.

Ltac run :=
  unfold bind, ret, throw, lift, read, Date_now, try_catch,
         set_cachedToken, set_tokenExpiresAt, console_error,
         response_json, response_text, fetch, after_fetch, logged; simpl.

(** Two responses that differ in status or body are different. *)
Ltac differ :=
  let Hr := fresh "Hr" in
  intros Hr; cbv [fst json status end_] in Hr; discriminate Hr.

(** [toLowerCase] folds the accented capitals as well as [A]-[Z], and
    leaves the multiplication sign and the sharp s alone. *)
Example toLowerCase_capitals :
  toLowerCase (String "196"%char "NNE@X.com") = String "228"%char "nne@x.com"
  /\ toLowerCase (String "222"%char (String "214"%char (String "192"%char "")))
     = String "254"%char (String "246"%char (String "224"%char ""))
  /\ toLowerCase (String "215"%char (String "223"%char (String "181"%char "")))
     = String "215"%char (String "223"%char (String "181"%char "")).
Proof. repeat split. Qed.

(** Folding twice is folding once. *)
Lemma lower_code_unit_idempotent (c : ascii) :
  lower_code_unit (lower_code_unit c) = lower_code_unit c.
Proof.
  destruct c as [[] [] [] [] [] [] [] []]; reflexivity.
Qed.

Lemma toLowerCase_idempotent (s : string) :
  toLowerCase (toLowerCase s) = toLowerCase s.
Proof.
  induction s as [| c rest IH]; simpl; [reflexivity |].
  now rewrite lower_code_unit_idempotent, IH.
Qed.

Lemma data_key_not_inherited (k : DataKey) : inherited (key_name k) = false.
Proof. destruct k; reflexivity. Qed.

(** A property read throws on the receiver's account only: where one
    read returns, so does any other. *)
Lemma get_prop_defined (v x : JSValue) (k k' : DataKey) :
  get_prop v k = Returned x -> exists y, get_prop v k' = Returned y.
Proof.
  destruct v; simpl; intros Hx; try discriminate; eauto.
  destruct (own_property props (key_name k')); eauto.
Qed.

Section TokenCache.
Context {H : Host}.

Lemma getAccessToken_hit (w : World) :
  cache_hit w = true -> getAccessToken w = (Returned (cachedToken w), w).
Proof.
  unfold cache_hit, getAccessToken. intros Hhit. run.
  destruct (truthy (cachedToken w)); simpl in *; [| discriminate].
  now rewrite Hhit.
Qed.

(** On a miss the exchange is made, and what follows depends only on how
    the upstream settles it. *)
Lemma getAccessToken_miss (w : World) :
  cache_hit w = false ->
  getAccessToken w =
  let (outcome, t) := upstream (fetched w) (clock w) token_call in
  let w' := after_fetch token_call t w in
  match outcome with
  | Rejected e => (Thrown e, w')
  | Resolved response =>
      if negb (ok response)
      then (Thrown (Error "Failed to get Kajabi access token"), w')
      else
        (data <- response_json response ;;
         access_token <- lift (get_prop data k_access_token) ;;
         set_cachedToken access_token ;;;
         now <- Date_now ;;
         expires_in <- lift (get_prop data k_expires_in) ;;
         lifetime <- lift (ToNumber expires_in) ;;
         set_tokenExpiresAt (now + (lifetime - 300) * 1000)%float ;;;
         read cachedToken) w'
  end.
Proof.
  unfold cache_hit, getAccessToken. intros Hmiss.
  unfold bind at 1. unfold read at 1. unfold bind at 1.
  assert (Hif : (if truthy (cachedToken w)
                 then now <- Date_now ;; expiry <- read tokenExpiresAt ;;
                      ret (now <? expiry)%float
                 else ret false) w = (Returned false, w)).
  { destruct (truthy (cachedToken w)); simpl in Hmiss; run; [now rewrite Hmiss | reflexivity]. }
  rewrite Hif. unfold bind at 1, fetch at 1.
  destruct (upstream (fetched w) (clock w) token_call) as [[response | e] t];
    unfold after_fetch; [| reflexivity].
  destruct (negb (ok response)); reflexivity.
Qed.

(** On a miss exactly one call is made, the token exchange, however it
    ends. *)
Lemma getAccessToken_miss_fetched (w : World) :
  cache_hit w = false ->
  fetched (snd (getAccessToken w)) = token_call :: fetched w.
Proof.
  intros Hmiss. rewrite (getAccessToken_miss w Hmiss).
  destruct (upstream (fetched w) (clock w) token_call) as [[response | e] t];
    [| reflexivity].
  destruct (negb (ok response)); [reflexivity |].
  run. destruct (resp_body response) as [text | e]; [| reflexivity].
  destruct (JSON_parse text) as [data |]; [| reflexivity]. run.
  destruct (get_prop data k_access_token) as [tok | e]; [| reflexivity].
  destruct (get_prop data k_expires_in) as [ex | e]; [| reflexivity].
  destruct (ToNumber ex); reflexivity.
Qed.

(** C1. Token cache. While a cached token exists and the clock is before
    its stored expiry, [getAccessToken] returns it and leaves the world as
    it was, so it makes no upstream call. Once the clock is no longer
    before the expiry (or when no token is cached: [cache_hit] is false)
    it makes exactly one call, the token exchange. When that exchange succeeds, answering with a
    token and a lifetime of [n] seconds, the token is stored and returned
    and the new expiry is the time then plus [(n - 300) * 1000] ms. *)
Theorem token_cache (w : World) :
  (truthy (cachedToken w) = true ->
   (clock w <? tokenExpiresAt w)%float = true ->
   getAccessToken w = (Returned (cachedToken w), w))
  /\ (cache_hit w = false ->
      fetched (snd (getAccessToken w)) = token_call :: fetched w)
  /\ (forall response t text data access_token n,
        cache_hit w = false ->
        upstream (fetched w) (clock w) token_call = (Resolved response, t) ->
        ok response = true ->
        resp_body response = BodyText text ->
        JSON_parse text = Some data ->
        get_prop data k_access_token = Returned access_token ->
        get_prop data k_expires_in = Returned (JSNumber n) ->
        getAccessToken w =
        (Returned access_token,
         mkWorld access_token (t + (n - 300) * 1000)%float t
                 (token_call :: fetched w) (console w))).
Proof.
  split; [| split].
  - intros Htok Hnow. apply getAccessToken_hit. unfold cache_hit.
    now rewrite Htok, Hnow.
  - apply getAccessToken_miss_fetched.
  - intros response t text data access_token n Hmiss Hup Hok Hbody Hparse Htok Hexp.
    rewrite (getAccessToken_miss w Hmiss), Hup, Hok. run.
    rewrite Hbody, Hparse. run. rewrite Htok, Hexp. reflexivity.
Qed.

(** C9. When the token exchange is made and fails, by a rejected [fetch]
    or by a response that is not ok, [getAccessToken] throws and both
    cache variables are what they were before the call. *)
Theorem failed_exchange_keeps_cache
    (w : World) (outcome : FetchOutcome) (t : float) :
  cache_hit w = false ->
  upstream (fetched w) (clock w) token_call = (outcome, t) ->
  exchange_failed outcome = true ->
  exists e w',
    getAccessToken w = (Thrown e, w')
    /\ cachedToken w' = cachedToken w
    /\ tokenExpiresAt w' = tokenExpiresAt w.
Proof.
  intros Hmiss Hup Hfail. rewrite (getAccessToken_miss w Hmiss), Hup.
  destruct outcome as [response | e]; simpl in Hfail.
  - rewrite Hfail. eexists; eexists; split; [reflexivity |]. split; reflexivity.
  - eexists; eexists; split; [reflexivity |]. split; reflexivity.
Qed.

End TokenCache.

Section Tagger.
Context {H : Host}.

(** The tagger's answer to a POST, stage by stage: the validation
    refuses with a 400, or it throws and the [catch] answers 500, or the
    four steps run and the answer is 200 when they return and 500 when
    one throws. *)
Lemma handler_post (req : Req) (res : Res) (w : World) :
  method req = "POST" ->
  handler req res w =
  match validate (body req) with
  | Refused b => (Returned (json b (status 400 (cors res))), w)
  | Failed e =>
      (Returned (json server_error (status 500 (cors res))),
       logged (error_line e) w)
  | Accepted email tagId =>
      match steps email tagId w with
      | (Returned _, w') =>
          (Returned (json ok_true (status 200 (cors res))), w')
      | (Thrown e, w') =>
          (Returned (json server_error (status 500 (cors res))),
           logged (error_line e) w')
      end
  end.
Proof.
  intros Hm. unfold handler. rewrite Hm.
  change (negb ("POST" =? "POST")) with false.
  change ("POST" =? "OPTIONS") with false. cbv iota.
  cbv beta delta [validate steps create_if_absent attach try_catch bind lift
                  ret console_error logged error_line].
  destruct (get_prop (body req) k_email) as [email | e];
    destruct (get_prop (body req) k_tag) as [tag | e']; try reflexivity.
  destruct (truthy email); [| reflexivity].
  destruct (call_includes email "@") as [[|] | e]; try reflexivity.
  cbn beta iota delta [negb].
  destruct (ToPropertyKey tag) as [key | e]; [| reflexivity].
  destruct (truthy_lookup (lookup tagMap key)); [| reflexivity].
  cbn beta iota delta [negb].
  destruct (getAccessToken w) as [[token | e] w1]; [| reflexivity].
  destruct (findContactByEmail token email w1) as [[found | e] w2];
    [| reflexivity].
  destruct (negb (truthy found)).
  - destruct (createContact token email w2) as [[created | e] w3];
      [| reflexivity].
    destruct (get_prop created k_data) as [contact | e]; [| reflexivity].
    destruct (get_prop contact k_id) as [contactId | e]; [| reflexivity].
    destruct (addTagToContact token contactId (lookup tagMap key) w3)
      as [[r | e] w4]; reflexivity.
  - destruct (get_prop found k_id) as [contactId | e]; [| reflexivity].
    destruct (addTagToContact token contactId (lookup tagMap key) w2)
      as [[r | e] w4]; reflexivity.
Qed.

Lemma steps_failed_step (email : JSValue) (tagId : Lookup) (w : World) :
  match steps email tagId w with
  | (Returned _, _) => failed_step email tagId w = None
  | (Thrown _, _) => exists s, failed_step email tagId w = Some s
  end.
Proof.
  unfold steps, failed_step.
  cbv beta delta [bind ret].
  destruct (getAccessToken w) as [[token | e] w1]; [| now eexists].
  destruct (findContactByEmail token email w1) as [[found | e] w2];
    [| now eexists].
  destruct (create_if_absent token email found w2) as [[contact | e] w3];
    [| now eexists].
  destruct (attach token contact tagId w3) as [[r | e] w4];
    [reflexivity | now eexists].
Qed.

(** A key that is neither one of the three names nor inherited is not in
    [tagMap]. *)
Lemma lookup_unrecognized (key : string) :
  ~ In key recognized_tags -> inherited key = false ->
  lookup tagMap key = Absent.
Proof.
  intros Hnot Hinh.
  cbv beta iota fix delta [own_property lookup tagMap].
  destruct (String.eqb_spec "contractor" key) as [E | _];
    [exfalso; apply Hnot; rewrite <- E; simpl; auto |].
  destruct (String.eqb_spec "diy" key) as [E | _];
    [exfalso; apply Hnot; rewrite <- E; simpl; auto |].
  destruct (String.eqb_spec "waitlist" key) as [E | _];
    [exfalso; apply Hnot; rewrite <- E; simpl; auto |].
  now rewrite Hinh.
Qed.

(** C5, as amended. A POST whose email passes validation and whose tag,
    taken as a property key, is neither one of the recognized names nor a
    name inherited from [Object.prototype] is answered 400 with the
    invalid-tag message, and the world is left as it was: no upstream
    call of any kind is made. *)
Theorem unrecognized_tag_refused
    (req : Req) (res : Res) (w : World) (email tag : JSValue) (key : string) :
  method req = "POST" ->
  get_prop (body req) k_email = Returned email ->
  get_prop (body req) k_tag = Returned tag ->
  truthy email = true ->
  call_includes email "@" = Returned true ->
  ToPropertyKey tag = Returned key ->
  ~ In key recognized_tags ->
  inherited key = false ->
  handler req res w = (Returned (json invalid_tag (status 400 (cors res))), w).
Proof.
  intros Hm He Ht Htruthy Hat Hkey Hnot Hinh.
  rewrite (handler_post req res w Hm). unfold validate.
  rewrite He, Ht, Htruthy, Hat, Hkey, (lookup_unrecognized key Hnot Hinh).
  reflexivity.
Qed.

(** C6, as amended. The answer to a POST is 400 "Valid email required"
    exactly when the body is present (reading [email] off it does not
    throw) and the email is missing or otherwise falsy, or is a string or
    an array that does not include [@]. *)
Theorem valid_email_required_iff (req : Req) (res : Res) (w : World) :
  method req = "POST" ->
  (fst (handler req res w)
   = Returned (json valid_email_required (status 400 (cors res)))
   <-> exists email,
         get_prop (body req) k_email = Returned email
         /\ (truthy email = false \/ call_includes email "@" = Returned false)).
Proof.
  intros Hm. rewrite (handler_post req res w Hm). unfold validate. split.
  - destruct (get_prop (body req) k_email) as [email | e] eqn:He.
    2:{ destruct (get_prop (body req) k_tag); differ. }
    destruct (get_prop (body req) k_tag) as [tag | e]; [| differ].
    destruct (truthy email) eqn:Htruthy; [| intros _; eauto].
    destruct (call_includes email "@") as [[|] | e] eqn:Hat;
      [| intros _; eauto | differ].
    destruct (ToPropertyKey tag) as [key | e]; [| differ].
    destruct (truthy_lookup (lookup tagMap key)); [| differ].
    destruct (steps email (lookup tagMap key) w) as [[r | e] w'];
      differ.
  - intros [email [He Hbad]]. rewrite He.
    destruct (get_prop_defined _ _ _ k_tag He) as [tag Ht]. rewrite Ht.
    destruct Hbad as [Hfalsy | Hno]; [now rewrite Hfalsy |].
    destruct (truthy email); now rewrite ?Hno.
Qed.

(** C7. A POST that passes validation is answered, without an exception
    escaping, 200 [{ok:true}] when every step performed returns and 500
    [{ok:false, error:'Server error'}] when one throws; the 500 is the same
    whichever of the four steps it was, so a tag attachment that fails
    after the contact was created is reported as any other failure. *)
Theorem all_or_nothing
    (req : Req) (res : Res) (w : World) (email : JSValue) (tagId : Lookup) :
  method req = "POST" ->
  validate (body req) = Accepted email tagId ->
  exists r w',
    handler req res w = (Returned r, w')
    /\ (forall s, failed_step email tagId w = Some s ->
                  r = json server_error (status 500 (cors res)))
    /\ (r = json ok_true (status 200 (cors res))
        <-> failed_step email tagId w = None).
Proof.
  intros Hm Hv. rewrite (handler_post req res w Hm), Hv.
  pose proof (steps_failed_step email tagId w) as Hs.
  destruct (steps email tagId w) as [[r | e] w'].
  - eexists; eexists; split; [reflexivity |]. rewrite Hs. split.
    + discriminate.
    + split; reflexivity.
  - destruct Hs as [s Hs].
    eexists; eexists; split; [reflexivity |]. rewrite Hs. split.
    + reflexivity.
    + split; discriminate.
Qed.

(** C10. A POST with no body ([undefined], and [null] alike), or with an
    email that is truthy but has no [includes] method (a number, [true],
    an object), is answered 500 [{ok:false, error:'Server error'}]: the
    [TypeError] is caught, logged, and never leaves the handler. *)
Theorem malformed_post_is_500 (req : Req) (res : Res) (w : World) :
  method req = "POST" ->
  (body req = JSUndefined \/ body req = JSNull
   \/ exists email, get_prop (body req) k_email = Returned email
                    /\ truthy email = true /\ has_includes email = false) ->
  exists e,
    err_name e = "TypeError"
    /\ handler req res w
       = (Returned (json server_error (status 500 (cors res))),
          logged (error_line e) w).
Proof.
  intros Hm Hbad. rewrite (handler_post req res w Hm). unfold validate.
  destruct Hbad as [Hb | [Hb | [email [He [Htruthy Hno]]]]].
  - rewrite Hb. simpl. eexists; split; [| reflexivity]. reflexivity.
  - rewrite Hb. simpl. eexists; split; [| reflexivity]. reflexivity.
  - rewrite He.
    destruct (get_prop_defined _ _ _ k_tag He) as [tag Ht]. rewrite Ht, Htruthy.
    destruct email; simpl in Hno, Htruthy; try discriminate;
      simpl; eexists; (split; [| reflexivity]); reflexivity.
Qed.

End Tagger.

Section Methods.
Context {H : Host}.

Lemma header_set_header (name value : string) (hs : list (string * string)) :
  header name (set_header name value hs) = Some value.
Proof.
  induction hs as [| [n v] rest IH]; simpl.
  - now rewrite String.eqb_refl.
  - destruct (toLowerCase n =? toLowerCase name) eqn:E; simpl.
    + now rewrite String.eqb_refl.
    + now rewrite E.
Qed.

Lemma header_set_header_other (name name' value : string)
    (hs : list (string * string)) :
  (toLowerCase name' =? toLowerCase name) = false ->
  header name (set_header name' value hs) = header name hs.
Proof.
  intros Hne. induction hs as [| [n v] rest IH]; simpl.
  - now rewrite Hne.
  - destruct (toLowerCase n =? toLowerCase name') eqn:E; simpl.
    + rewrite Hne. apply String.eqb_eq in E. rewrite E. now rewrite Hne.
    + destruct (toLowerCase n =? toLowerCase name); [reflexivity | exact IH].
Qed.

(** After the three [setHeader] calls the three CORS headers are set,
    whatever the response carried before. *)
Lemma cors_headers (res : Res) :
  let hs := headers (Relay.cors res) in
  header "Access-Control-Allow-Origin" hs = Some "*"
  /\ header "Access-Control-Allow-Methods" hs = Some "POST, OPTIONS"
  /\ header "Access-Control-Allow-Headers" hs = Some "Content-Type".
Proof.
  unfold Relay.cors, setHeader; cbn [headers]. repeat split.
  - rewrite !header_set_header_other by reflexivity. apply header_set_header.
  - rewrite header_set_header_other by reflexivity. apply header_set_header.
  - apply header_set_header.
Qed.

(** C3, at the input where the code departs from it. An OPTIONS request
    never reaches the pre-flight branch of the tagger or of the relay as
    first written: the method check before it answers 405 with the
    "Method not allowed" body, and no CORS header is set on the way. *)
Theorem options_answered_405 (b : JSValue) (res : Res) (w : World) :
  KajabiTag.handler (mkReq "OPTIONS" b) res w
  = (Returned (mkRes 405 (headers res)
                     (Some (JsonBody KajabiTag.method_not_allowed))), w)
  /\ Relay.handler (mkReq "OPTIONS" b) res w
     = (Returned (mkRes 405 (headers res)
                        (Some (JsonBody Relay.method_not_allowed))), w).
Proof. split; reflexivity. Qed.

(** The part of C3 the code keeps: a method that is neither POST nor
    OPTIONS is answered 405 by the tagger and by both relays. *)
Lemma other_methods_405 (req : Req) (res : Res) (w : World) :
  method req <> "POST" ->
  method req <> "OPTIONS" ->
  (exists r, KajabiTag.handler req res w = (Returned r, w) /\ statusCode r = 405%Z)
  /\ (exists r, Relay.handler req res w = (Returned r, w) /\ statusCode r = 405%Z)
  /\ (exists r, RelayFixed.handler req res w = (Returned r, w)
                /\ statusCode r = 405%Z).
Proof.
  intros Hpost Hoptions.
  apply String.eqb_neq in Hpost. apply String.eqb_neq in Hoptions.
  unfold KajabiTag.handler, Relay.handler, RelayFixed.handler.
  rewrite Hpost, Hoptions. simpl. repeat split; eexists; split; reflexivity.
Qed.

(** The pre-flight as the "FIXED" relay answers it: 200, no body, the
    three CORS headers. *)
Lemma fixed_relay_preflight (b : JSValue) (res : Res) (w : World) :
  RelayFixed.handler (mkReq "OPTIONS" b) res w
  = (Returned (mkRes 200 (headers (Relay.cors res)) (Some EmptyBody)), w).
Proof. reflexivity. Qed.

End Methods.

Section Relays.
Context {H : Host}.

(** The relay's answer to a POST, by how the upstream call ends. *)
Lemma relay_post (req : Req) (res : Res) (w : World) :
  method req = "POST" ->
  Relay.handler req res w =
  let call := Relay.webhook_call req in
  let (outcome, t) := upstream (fetched w) (clock w) call in
  let w' := after_fetch call t w in
  let failed e :=
    (Returned (json (Relay.connect_failed e) (status 500 (Relay.cors res))),
     logged (proxy_line e) w') in
  match outcome with
  | Resolved response =>
      match resp_body response with
      | BodyText text =>
          (Returned (json (Relay.interpret text) (status 200 (Relay.cors res))),
           w')
      | BodyFailed e => failed e
      end
  | Rejected e => failed e
  end.
Proof.
  intros Hm. unfold Relay.handler, Relay.forward. rewrite Hm.
  change (negb ("POST" =? "POST")) with false.
  change ("POST" =? "OPTIONS") with false. cbv iota.
  cbv beta zeta delta [try_catch bind fetch response_text ret throw
                       console_error logged proxy_line after_fetch].
  destruct (upstream (fetched w) (clock w) (Relay.webhook_call req))
    as [[response | e] t]; [| reflexivity].
  destruct (resp_body response); reflexivity.
Qed.

(** C4. On a POST, when the upstream call does not throw the relay answers
    200 with the upstream text parsed as JSON, or with [{message: text}]
    when it does not parse; the upstream's status code plays no part.
    When the call throws, by a rejected [fetch] or a body that cannot be
    read, the relay answers 500 with [{error, details}], the details being
    the error's message. *)
Theorem relay_forwards (req : Req) (res : Res) (w : World) :
  method req = "POST" ->
  let call := Relay.webhook_call req in
  (forall code text t,
      upstream (fetched w) (clock w) call
      = (Resolved (mkResponse code (BodyText text)), t) ->
      Relay.handler req res w
      = (Returned
           (mkRes 200 (headers (Relay.cors res))
              (Some (JsonBody
                       match JSON_parse text with
                       | Some parsed => parsed
                       | None => JSObject [("message", JSString text)]
                       end))),
         after_fetch call t w))
  /\ (forall outcome t e,
         upstream (fetched w) (clock w) call = (outcome, t) ->
         outcome = Rejected e
         \/ (exists code, outcome = Resolved (mkResponse code (BodyFailed e))) ->
         Relay.handler req res w
         = (Returned
              (mkRes 500 (headers (Relay.cors res))
                 (Some (JsonBody
                          (JSObject
                             [("error", JSString "Failed to connect to Make.com");
                              ("details", JSString (message e))])))),
            logged (proxy_line e) (after_fetch call t w))).
Proof.
  intros Hm call. subst call. split.
  - intros code text t Hup. rewrite (relay_post req res w Hm).
    cbv zeta. rewrite Hup. reflexivity.
  - intros outcome t e Hup Hthrows. rewrite (relay_post req res w Hm).
    cbv zeta. rewrite Hup.
    destruct Hthrows as [-> | [code ->]]; reflexivity.
Qed.

(** C8, as amended. The two variants of the relay answer every POST alike,
    effects included. To a method that is neither POST nor OPTIONS both
    answer 405 with the same body, but only the "FIXED" variant has set
    the CORS headers by then. On OPTIONS they differ in status and body
    as well. *)
Theorem relay_variants (req : Req) (res : Res) (w : World) :
  (method req = "POST" ->
   RelayFixed.handler req res w = Relay.handler req res w)
  /\ (method req <> "POST" -> method req <> "OPTIONS" ->
      Relay.handler req res w
      = (Returned (mkRes 405 (headers res)
                         (Some (JsonBody Relay.method_not_allowed))), w)
      /\ RelayFixed.handler req res w
         = (Returned (mkRes 405 (headers (Relay.cors res))
                            (Some (JsonBody Relay.method_not_allowed))), w))
  /\ (method req = "OPTIONS" ->
      Relay.handler req res w
      = (Returned (mkRes 405 (headers res)
                         (Some (JsonBody Relay.method_not_allowed))), w)
      /\ RelayFixed.handler req res w
         = (Returned (mkRes 200 (headers (Relay.cors res)) (Some EmptyBody)), w)).
Proof.
  unfold RelayFixed.handler, Relay.handler. split; [| split].
  - intros Hm. rewrite Hm. reflexivity.
  - intros Hpost Hoptions.
    apply String.eqb_neq in Hpost. apply String.eqb_neq in Hoptions.
    rewrite Hpost, Hoptions. split; reflexivity.
  - intros Hm. rewrite Hm. split; reflexivity.
Qed.

End Relays.

Section Resolution.
Context {H : Host}.

(** Case analysis on an innermost scrutinee of the goal. *)
Ltac break_match :=
  match goal with
  | |- context [match ?x with _ => _ end] =>
      lazymatch x with
      | context [match _ with _ => _ end] => fail
      | _ => destruct x
      end
  end.

Lemma well_formed_object (contact : JSValue) :
  well_formed contact -> exists props, contact = JSObject props.
Proof.
  intros [s Hs]. unfold contact_email in Hs.
  destruct contact; simpl in Hs; try discriminate. eauto.
Qed.

(** The comparison does not see the case of the email looked for. *)
Lemma exact_match_fold (email : string) (contact : JSValue) :
  exact_match (toLowerCase email) contact = exact_match email contact.
Proof.
  unfold exact_match. destruct (contact_email contact); [| reflexivity].
  now rewrite toLowerCase_idempotent.
Qed.

(** On a well-formed contact the callback of [find] does not throw, and
    is the case-insensitive comparison of the two emails. *)
Lemma same_email_exact (email : string) (contact : JSValue) :
  well_formed contact ->
  same_email (JSString email) contact = Returned (exact_match email contact).
Proof.
  intros [s Hs]. unfold same_email, exact_match. rewrite Hs.
  unfold contact_email in Hs.
  destruct (get_prop contact k_attributes) as [attributes | e];
    [| discriminate].
  simpl obind.
  destruct (get_prop attributes k_email) as [[] | e]; try discriminate.
  injection Hs as ->. reflexivity.
Qed.

(** [find] with that callback is the first exact match of the list. *)
Lemma Array_find_exact (email : string) (results : list JSValue) :
  Forall well_formed results ->
  Array_find (same_email (JSString email)) results
  = Returned match find (exact_match email) results with
             | Some contact => contact
             | None => JSUndefined
             end.
Proof.
  induction 1 as [| contact rest Hwf _ IH]; simpl; [reflexivity |].
  rewrite (same_email_exact email contact Hwf).
  destruct (exact_match email contact); [reflexivity | exact IH].
Qed.

Lemma find_well_formed (email : string) (results : list JSValue) (c : JSValue) :
  Forall well_formed results ->
  find (exact_match email) results = Some c ->
  truthy c = true /\ exists id, get_prop c k_id = Returned id.
Proof.
  intros Hall Hfind. apply find_some in Hfind as [Hin _].
  rewrite Forall_forall in Hall.
  destruct (well_formed_object c (Hall c Hin)) as [props ->].
  split; [reflexivity |]. simpl.
  destruct (own_property props "id"); eauto.
Qed.

(** What [findContactByEmail] returns on a search that succeeds with a
    list of well-formed contacts. *)
Lemma findContactByEmail_exact
    (token : JSValue) (bearer email : string) (w : World)
    (response : FetchResponse) (text : string) (t : float)
    (data : JSValue) (results : list JSValue) :
  ToString token = Returned bearer ->
  upstream (fetched w) (clock w) (search_call bearer email)
  = (Resolved response, t) ->
  ok response = true ->
  resp_body response = BodyText text ->
  JSON_parse text = Some data ->
  get_prop data k_data = Returned (JSArray results) ->
  Forall well_formed results ->
  findContactByEmail token (JSString email) w
  = (Returned match find (exact_match email) results with
              | Some contact => contact
              | None => JSNull
              end,
     after_fetch (search_call bearer email) t w).
Proof.
  intros Htok Hup Hok Hbody Hparse Hdata Hall.
  unfold findContactByEmail. run. rewrite Htok. run. rewrite Hup, Hok. run.
  rewrite Hbody, Hparse. run. rewrite Hdata. simpl.
  rewrite (Array_find_exact email results Hall).
  destruct (find (exact_match email) results) as [c |] eqn:Hfind;
    [| reflexivity].
  destruct (find_well_formed email results c Hall Hfind) as [Htruthy _].
  now rewrite Htruthy.
Qed.

(** [getAccessToken] makes the token exchange or no call at all. *)
Lemma getAccessToken_calls (w : World) :
  exists calls,
    fetched (snd (getAccessToken w)) = (calls ++ fetched w)%list
    /\ existsb is_create calls = false.
Proof.
  destruct (cache_hit w) eqn:Hhit.
  - rewrite (getAccessToken_hit w Hhit). now exists [].
  - exists [token_call]. split; [| reflexivity].
    now apply getAccessToken_miss_fetched.
Qed.

(** [createContact] makes exactly the create call, however it ends. *)
Lemma createContact_calls (token email : JSValue) (bearer : string) (w : World) :
  ToString token = Returned bearer ->
  fetched (snd (createContact token email w))
  = create_call bearer email :: fetched w.
Proof.
  intros Htok. unfold createContact. run. rewrite Htok.
  repeat (break_match; unfold ret, throw, lift; cbn beta iota);
    reflexivity.
Qed.

(** Attaching the tag makes the tag call or none, never a create call. *)
Lemma attach_calls (token contact : JSValue) (tagId : Lookup) (w : World) :
  exists calls,
    fetched (snd (attach token contact tagId w)) = (calls ++ fetched w)%list
    /\ existsb is_create calls = false.
Proof.
  unfold attach, addTagToContact. run.
  destruct (get_prop contact k_id) as [id | e]; [| now exists []].
  destruct (ToString id) as [ids | e]; [| now exists []].
  destruct (ToString token) as [bearer | e]; [| now exists []].
  exists [tag_call bearer ids tagId]. split; [| reflexivity].
  repeat (break_match; unfold ret, throw, lift; cbn beta iota);
    reflexivity.
Qed.

(** When the contact has an id that converts to a string, the tag call
    goes to that id. *)
Lemma attach_fetched
    (token contact id : JSValue) (bearer ids : string) (tagId : Lookup)
    (w : World) :
  ToString token = Returned bearer ->
  get_prop contact k_id = Returned id ->
  ToString id = Returned ids ->
  fetched (snd (attach token contact tagId w))
  = tag_call bearer ids tagId :: fetched w.
Proof.
  intros Htok Hid Hids. unfold attach, addTagToContact. run.
  rewrite Hid, Hids, Htok.
  repeat (break_match; unfold ret, throw, lift; cbn beta iota);
    reflexivity.
Qed.

Lemma handler_calls
    (req : Req) (res : Res) (w : World) (email : JSValue) (tagId : Lookup) :
  method req = "POST" ->
  validate (body req) = Accepted email tagId ->
  fetched (snd (handler req res w)) = fetched (snd (steps email tagId w)).
Proof.
  intros Hm Hv. rewrite (handler_post req res w Hm), Hv.
  destruct (steps email tagId w) as [[r | e] w']; reflexivity.
Qed.

(** C2. Contact resolution. For a request the tagger has accepted with
    the email [email], once the token is obtained and the search has
    answered with a list of contacts, each with its email,
    [findContactByEmail] gives the
    first contact whose email equals [email] up to case, and [null] when
    there is none: a contact is selected exactly when some returned
    contact matches exactly, however close the others are. The handler
    then calls the upstream to create a contact exactly when none was
    selected, and attaches the tag to the selected contact when one
    was. *)
Theorem contact_resolution
    (req : Req) (res : Res) (w w1 : World) (email bearer text : string)
    (tagId : Lookup) (token data : JSValue) (code : Z) (t : float)
    (results : list JSValue) :
  method req = "POST" ->
  validate (body req) = Accepted (JSString email) tagId ->
  getAccessToken w = (Returned token, w1) ->
  ToString token = Returned bearer ->
  upstream (fetched w1) (clock w1) (search_call bearer email)
  = (Resolved (mkResponse code (BodyText text)), t) ->
  (200 <= code < 300)%Z ->
  JSON_parse text = Some data ->
  get_prop data k_data = Returned (JSArray results) ->
  Forall well_formed results ->
  let selected := find (exact_match email) results in
  findContactByEmail token (JSString email) w1
  = (Returned match selected with
              | Some contact => contact
              | None => JSNull
              end,
     after_fetch (search_call bearer email) t w1)
  /\ ((exists contact, selected = Some contact)
      <-> exists contact, In contact results /\ exact_match email contact = true)
  /\ (exists calls,
         fetched (snd (handler req res w)) = (calls ++ fetched w)%list
         /\ (existsb is_create calls = true <-> selected = None))
  /\ (forall contact id ids,
         selected = Some contact ->
         get_prop contact k_id = Returned id ->
         ToString id = Returned ids ->
         fetched (snd (handler req res w))
         = tag_call bearer ids tagId :: search_call bearer email :: fetched w1).
Proof.
  intros Hm Hv Hget Htok Hup Hcode Hparse Hdata Hall selected.
  assert (Hok : ok (mkResponse code (BodyText text)) = true).
  { unfold ok; simpl. apply andb_true_intro. split; [apply Z.leb_le | apply Z.ltb_lt]; lia. }
  pose proof (findContactByEmail_exact token bearer email w1 _ text t data
                results Htok Hup Hok eq_refl Hparse Hdata Hall) as Hfind.
  fold selected in Hfind.
  split; [exact Hfind | split; [| split]].
  - split.
    + intros [c Hc]. exists c. now apply find_some in Hc.
    + intros [c [Hin Hc]].
      destruct selected as [c' |] eqn:Hsel; [eauto |].
      exfalso. pose proof (find_none _ _ Hsel c Hin) as Hno. congruence.
  - rewrite (handler_calls req res w (JSString email) tagId Hm Hv).
    destruct (getAccessToken_calls w) as [calls0 [Hcalls0 Hnone0]].
    rewrite Hget in Hcalls0. simpl in Hcalls0.
    unfold steps. unfold bind at 1. rewrite Hget.
    unfold bind at 1. rewrite Hfind.
    remember (after_fetch (search_call bearer email) t w1) as w2 eqn:Ew2.
    assert (Hw2 : fetched w2
                  = (search_call bearer email :: calls0 ++ fetched w)%list)
      by (rewrite Ew2; unfold after_fetch; simpl; now rewrite Hcalls0).
    clear Ew2.
    destruct selected as [c |] eqn:Hsel.
    + destruct (find_well_formed email results c Hall Hsel) as [Htruthy _].
      unfold create_if_absent. rewrite Htruthy. simpl negb. cbv iota.
      unfold bind at 1. unfold ret at 1.
      destruct (attach_calls token c tagId w2) as [calls1 [Hcalls1 Hnone1]].
      exists (calls1 ++ search_call bearer email :: calls0)%list. split.
      * unfold bind.
        destruct (attach token c tagId w2) as [[r | e] w3]; simpl in *;
          rewrite Hcalls1, Hw2, <- app_assoc; reflexivity.
      * rewrite existsb_app, Hnone1. simpl. rewrite Hnone0.
        split; discriminate.
    + unfold create_if_absent. simpl negb. cbv iota.
      pose proof (createContact_calls token (JSString email) bearer w2 Htok)
        as Hcreate.
      unfold bind at 1. unfold bind at 1.
      destruct (createContact token (JSString email) w2) as [[created | e] w3];
        simpl in Hcreate.
      * unfold lift at 1.
        destruct (get_prop created k_data) as [contact | e].
        -- destruct (attach_calls token contact tagId w3) as [calls1 [Hcalls1 Hnone1]].
           exists (calls1 ++ create_call bearer (JSString email)
                     :: search_call bearer email :: calls0)%list. split.
           ++ unfold bind.
              destruct (attach token contact tagId w3) as [[r | e] w4];
                simpl in *; rewrite Hcalls1, Hcreate, Hw2, <- app_assoc;
                reflexivity.
           ++ rewrite existsb_app, Hnone1. simpl. split; reflexivity.
        -- exists (create_call bearer (JSString email)
                     :: search_call bearer email :: calls0)%list. split.
           ++ simpl. rewrite Hcreate, Hw2. reflexivity.
           ++ simpl. split; reflexivity.
      * exists (create_call bearer (JSString email)
                  :: search_call bearer email :: calls0)%list. split.
        -- simpl. rewrite Hcreate, Hw2. reflexivity.
        -- simpl. split; reflexivity.
  - intros c id ids Hsel Hid Hids.
    rewrite (handler_calls req res w (JSString email) tagId Hm Hv).
    unfold steps. unfold bind at 1. rewrite Hget.
    unfold bind at 1. rewrite Hfind. rewrite Hsel.
    destruct (find_well_formed email results c Hall Hsel) as [Htruthy _].
    unfold create_if_absent. rewrite Htruthy. simpl negb. cbv iota.
    unfold bind at 1. unfold ret at 1.
    pose proof (attach_fetched token c id bearer ids tagId
                  (after_fetch (search_call bearer email) t w1)
                  Htok Hid Hids) as Hattach.
    unfold bind.
    destruct (attach token c tagId
                (after_fetch (search_call bearer email) t w1))
      as [[r | e] w3]; simpl in Hattach |- *; exact Hattach.
Qed.

End Resolution.

(** * Further properties: what each function does to the world *)

(** Unfold the monad and split on an innermost scrutinee, keeping the
    equation, until none is left. *)
Ltac unfold_monad :=
  cbv beta iota zeta
      delta [bind lift fetch ret throw read response_json response_text
             set_cachedToken set_tokenExpiresAt Date_now].

Ltac split_innermost :=
  match goal with
  | |- context [match ?x with _ => _ end] =>
      lazymatch x with
      | context [match _ with _ => _ end] => fail
      | _ => destruct x eqn:?
      end
  end.

Ltac walk := unfold_monad; repeat (split_innermost; unfold_monad).

(** Split a six-fold conjunction and close the five equations in it. *)
Ltac six_parts :=
  split; [| split; [| split; [| split; [| split]]]];
  [reflexivity | reflexivity | reflexivity | reflexivity | reflexivity |].

Section Frames.
Context {H : Host}.

(** [findContactByEmail] returns only after the search call; when it
    throws it has made that call or none. Nothing else of the world
    changes. *)
Lemma findContactByEmail_world (token email : JSValue) (w : World) :
  match findContactByEmail token email w with
  | (Returned _, w') =>
      exists bearer query t,
        ToString token = Returned bearer
        /\ w' = after_fetch (search_call bearer query) t w
  | (Thrown _, w') =>
      w' = w
      \/ exists bearer query t,
           ToString token = Returned bearer
           /\ w' = after_fetch (search_call bearer query) t w
  end.
Proof.
  unfold findContactByEmail, after_fetch. walk; eauto 8.
Qed.

(** [createContact] returns exactly when the upstream answers the create
    call with a 2xx status and a JSON text, and returns that JSON. *)
Lemma createContact_world (token email : JSValue) (w : World) :
  match createContact token email w with
  | (Returned created, w') =>
      exists bearer response text t,
        ToString token = Returned bearer
        /\ upstream (fetched w) (clock w) (create_call bearer email)
           = (Resolved response, t)
        /\ ok response = true
        /\ resp_body response = BodyText text
        /\ JSON_parse text = Some created
        /\ w' = after_fetch (create_call bearer email) t w
  | (Thrown _, w') =>
      w' = w
      \/ exists bearer t,
           ToString token = Returned bearer
           /\ w' = after_fetch (create_call bearer email) t w
  end.
Proof.
  unfold createContact, after_fetch. walk; eauto 12.
  all: try (apply negb_false_iff in Heqb; eauto 12).
Qed.

(** The same for [addTagToContact] and the tag call. *)
Lemma addTagToContact_world
    (token contactId : JSValue) (tagId : Lookup) (w : World) :
  match addTagToContact token contactId tagId w with
  | (Returned answered, w') =>
      exists bearer id response text t,
        ToString token = Returned bearer
        /\ ToString contactId = Returned id
        /\ upstream (fetched w) (clock w) (tag_call bearer id tagId)
           = (Resolved response, t)
        /\ ok response = true
        /\ resp_body response = BodyText text
        /\ JSON_parse text = Some answered
        /\ w' = after_fetch (tag_call bearer id tagId) t w
  | (Thrown _, w') =>
      w' = w
      \/ exists bearer id t,
           ToString token = Returned bearer
           /\ w' = after_fetch (tag_call bearer id tagId) t w
  end.
Proof.
  unfold addTagToContact, after_fetch. walk; eauto 12.
  all: try (apply negb_false_iff in Heqb; eauto 14).
Qed.

(** On a miss [getAccessToken] makes the token call and leaves the
    console alone. *)
Lemma getAccessToken_world (w : World) :
  cache_hit w = false ->
  exists token expiry t,
    snd (getAccessToken w)
    = mkWorld token expiry t (token_call :: fetched w) (console w).
Proof.
  intros Hmiss. rewrite (getAccessToken_miss w Hmiss).
  unfold after_fetch. walk; simpl; eauto.
Qed.

Lemma create_if_absent_world (token email found : JSValue) (w : World) :
  match create_if_absent token email found w with
  | (Returned contact, w') =>
      (truthy found = true /\ contact = found /\ w' = w)
      \/ (truthy found = false
          /\ exists bearer t,
               ToString token = Returned bearer
               /\ w' = after_fetch (create_call bearer email) t w)
  | (Thrown _, w') =>
      truthy found = false
      /\ (w' = w
          \/ exists bearer t,
               ToString token = Returned bearer
               /\ w' = after_fetch (create_call bearer email) t w)
  end.
Proof.
  unfold create_if_absent.
  pose proof (createContact_world token email w) as Hc.
  destruct (truthy found); cbn beta iota delta [negb].
  - unfold ret. auto.
  - unfold bind, lift.
    destruct (createContact token email w) as [[created | e] w'].
    + destruct Hc as (bearer & response & text & t & Htok & _ & _ & _ & _ & Hw).
      destruct (get_prop created k_data); eauto 8.
    + auto.
Qed.

Lemma attach_world (token contact : JSValue) (tagId : Lookup) (w : World) :
  match attach token contact tagId w with
  | (Returned _, w') =>
      exists bearer id response t,
        ToString token = Returned bearer
        /\ upstream (fetched w) (clock w) (tag_call bearer id tagId)
           = (Resolved response, t)
        /\ ok response = true
        /\ w' = after_fetch (tag_call bearer id tagId) t w
  | (Thrown _, w') =>
      w' = w
      \/ exists bearer id t,
           ToString token = Returned bearer
           /\ w' = after_fetch (tag_call bearer id tagId) t w
  end.
Proof.
  unfold attach, bind, lift.
  destruct (get_prop contact k_id) as [contactId | e]; [| auto].
  pose proof (addTagToContact_world token contactId tagId w) as Ha.
  destruct (addTagToContact token contactId tagId w) as [[r | e] w'].
  - destruct Ha as (bearer & id & response & text & t
                    & Htok & _ & Hup & Hok & _ & _ & Hw).
    eauto 10.
  - exact Ha.
Qed.

(** The kinds of the calls the tagger makes. *)
Lemma kind_of_token_call : kind_of token_call = TokenCall.
Proof. reflexivity. Qed.

Lemma kind_of_search_call (bearer query : string) :
  kind_of (search_call bearer query) = SearchCall.
Proof. reflexivity. Qed.

Lemma kind_of_create_call (bearer : string) (email : JSValue) :
  kind_of (create_call bearer email) = CreateCall.
Proof. reflexivity. Qed.

Lemma kind_of_tag_call (bearer id : string) (tagId : Lookup) :
  kind_of (tag_call bearer id tagId) = TagCall.
Proof. destruct id; reflexivity. Qed.

Lemma after_token_well_ordered (kinds : list CallKind) :
  after_token kinds = true -> well_ordered kinds = true.
Proof.
  destruct kinds as [| [] rest]; simpl; auto; discriminate.
Qed.

(** Steps 2 to 4, run with the token in hand: the calls they make, in
    order, and what they leave untouched. *)
Lemma after_token_world
    (token email : JSValue) (tagId : Lookup) (w w' : World)
    (o : Outcome unit) :
  (found <- findContactByEmail token email ;;
   contact <- create_if_absent token email found ;;
   attach token contact tagId ;;;
   ret tt) w = (o, w') ->
  exists calls,
    fetched w' = (calls ++ fetched w)%list
    /\ console w' = console w
    /\ cachedToken w' = cachedToken w
    /\ tokenExpiresAt w' = tokenExpiresAt w
    /\ after_token (map kind_of (rev calls)) = true
    /\ forall call bearer,
         In call calls -> ToString token = Returned bearer ->
         header "Authorization" (init_headers call) = Some ("Bearer " ++ bearer).
Proof.
  unfold bind at 1.
  pose proof (findContactByEmail_world token email w) as Hfind.
  destruct (findContactByEmail token email w) as [[found | e] w1].
  2:{ intros Hrun. injection Hrun as <- <-.
      destruct Hfind as [-> | (bearer & query & t & Htok & ->)].
      - exists []. simpl. six_parts. intros ? ? [].
      - exists [search_call bearer query]. simpl. six_parts.
        intros call b [<- | []] Hb. rewrite Htok in Hb.
        injection Hb as <-. reflexivity. }
  destruct Hfind as (bearer & query & t & Htok & ->).
  unfold bind at 1.
  pose proof (create_if_absent_world token email found
                (after_fetch (search_call bearer query) t w)) as Hcreate.
  destruct (create_if_absent token email found
              (after_fetch (search_call bearer query) t w))
    as [[contact | e] w2].
  2:{ intros Hrun. injection Hrun as <- <-.
      destruct Hcreate as [_ [-> | (b & t' & Hb & ->)]].
      - exists [search_call bearer query]. simpl. six_parts.
        intros call b [<- | []] Hb. rewrite Htok in Hb.
        injection Hb as <-. reflexivity.
      - exists [create_call b email; search_call bearer query]. simpl.
        six_parts.
        intros call b' [<- | [<- | []]] Hb'; rewrite Hb' in Hb, Htok;
          injection Hb as <-; injection Htok as <-; reflexivity. }
  unfold bind at 1.
  pose proof (attach_world token contact tagId w2) as Hattach.
  destruct (attach token contact tagId w2) as [[r | e] w3];
    cbn beta iota delta [ret]; intros Hrun; injection Hrun as <- <-.
  - destruct Hattach as (b2 & id & response & t2 & Hb2 & _ & _ & ->).
    destruct Hcreate as [(_ & _ & ->) | (_ & b1 & t1 & Hb1 & ->)].
    + exists [tag_call b2 id tagId; search_call bearer query].
      cbn [map rev app]. rewrite kind_of_tag_call, kind_of_search_call.
      six_parts.
      intros call b [<- | [<- | []]] Hb; rewrite Hb in Hb2, Htok;
        injection Hb2 as <-; injection Htok as <-; reflexivity.
    + exists [tag_call b2 id tagId; create_call b1 email;
              search_call bearer query].
      cbn [map rev app].
      rewrite kind_of_tag_call, kind_of_search_call, kind_of_create_call.
      six_parts.
      intros call b [<- | [<- | [<- | []]]] Hb; rewrite Hb in Hb1, Hb2, Htok;
        injection Hb1 as <-; injection Hb2 as <-; injection Htok as <-;
        reflexivity.
  - destruct Hattach as [-> | (b2 & id & t2 & Hb2 & ->)];
      destruct Hcreate as [(_ & _ & ->) | (_ & b1 & t1 & Hb1 & ->)].
    + exists [search_call bearer query]. simpl. six_parts.
      intros call b [<- | []] Hb. rewrite Htok in Hb.
      injection Hb as <-. reflexivity.
    + exists [create_call b1 email; search_call bearer query]. simpl.
      six_parts.
      intros call b [<- | [<- | []]] Hb; rewrite Hb in Hb1, Htok;
        injection Hb1 as <-; injection Htok as <-; reflexivity.
    + exists [tag_call b2 id tagId; search_call bearer query].
      cbn [map rev app]. rewrite kind_of_tag_call, kind_of_search_call.
      six_parts.
      intros call b [<- | [<- | []]] Hb; rewrite Hb in Hb2, Htok;
        injection Hb2 as <-; injection Htok as <-; reflexivity.
    + exists [tag_call b2 id tagId; create_call b1 email;
              search_call bearer query].
      cbn [map rev app].
      rewrite kind_of_tag_call, kind_of_search_call, kind_of_create_call.
      six_parts.
      intros call b [<- | [<- | [<- | []]]] Hb; rewrite Hb in Hb1, Hb2, Htok;
        injection Hb1 as <-; injection Hb2 as <-; injection Htok as <-;
        reflexivity.
Qed.

Lemma after_token_no_token (kinds : list CallKind) :
  after_token kinds = true -> ~ In TokenCall kinds.
Proof.
  destruct kinds as [| [] [| [] [| [] [| ? ?]]]]; simpl; try discriminate;
    intuition discriminate.
Qed.

(** The four steps: the calls they make, in order, and what they leave
    untouched. *)
Lemma steps_world
    (email : JSValue) (tagId : Lookup) (w w' : World) (o : Outcome unit) :
  steps email tagId w = (o, w') ->
  exists calls,
    fetched w' = (calls ++ fetched w)%list
    /\ console w' = console w
    /\ well_ordered (map kind_of (rev calls)) = true
    /\ (cache_hit w = true ->
        cachedToken w' = cachedToken w
        /\ tokenExpiresAt w' = tokenExpiresAt w
        /\ ~ In TokenCall (map kind_of calls))
    /\ (cache_hit w = false -> exists rest, calls = (rest ++ [token_call])%list).
Proof.
  unfold steps. unfold bind at 1. destruct (cache_hit w) eqn:Hhit.
  - rewrite (getAccessToken_hit w Hhit). intros Hrun.
    destruct (after_token_world _ _ _ _ _ _ Hrun)
      as (calls & Hf & Hc & Htok & Hexp & Hord & _).
    exists calls. split; [exact Hf |]. split; [exact Hc |].
    split; [now apply after_token_well_ordered |].
    split; [| discriminate]. intros _. split; [exact Htok |].
    split; [exact Hexp |].
    intros Hin. apply (after_token_no_token _ Hord).
    rewrite map_rev. now apply in_rev in Hin.
  - destruct (getAccessToken_world w Hhit) as (tok & expiry & t & Hw1).
    destruct (getAccessToken w) as [[token | e] w1]; simpl in Hw1; subst w1.
    + intros Hrun.
      destruct (after_token_world _ _ _ _ _ _ Hrun)
        as (calls & Hf & Hc & _ & _ & Hord & _).
      exists (calls ++ [token_call])%list.
      split; [rewrite Hf; simpl; now rewrite <- app_assoc |].
      split; [exact Hc |].
      split; [rewrite rev_app_distr; simpl; exact Hord |].
      split; [discriminate | eauto].
    + intros Hrun. injection Hrun as <- <-.
      exists [token_call]. split; [reflexivity |]. split; [reflexivity |].
      split; [reflexivity |]. split; [discriminate |]. now exists [].
Qed.

(** A refusal of the validation carries one of the two messages. *)
Lemma validate_refused (b error_body : JSValue) :
  validate b = Refused error_body ->
  error_body = valid_email_required \/ error_body = invalid_tag.
Proof.
  unfold validate.
  destruct (get_prop b k_email) as [email | e];
    destruct (get_prop b k_tag) as [tag | e']; try discriminate.
  destruct (if truthy email then call_includes email "@" else Returned false)
    as [[|] | e]; try discriminate.
  - destruct (ToPropertyKey tag) as [key | e]; [| discriminate].
    destruct (truthy_lookup (lookup tagMap key)); [discriminate |].
    intros Hr. injection Hr as <-. now right.
  - intros Hr. injection Hr as <-. now left.
Qed.

Lemma handler_runs (req : Req) (res : Res) (w : World) :
  exists r w', handler req res w = (Returned r, w') /\ Run req res w r w'.
Proof.
  destruct (String.eqb_spec (method req) "POST") as [Hm | Hm].
  - rewrite (handler_post req res w Hm).
    destruct (validate (body req)) as [email tagId | error_body | e] eqn:Hv.
    + destruct (steps email tagId w) as [[[] | e] w'] eqn:Hs;
        eexists; eexists; (split; [reflexivity |]);
        [eapply RunDone | eapply RunThrew]; eauto.
    + eexists; eexists; split; [reflexivity |]. now apply RunRefused.
    + eexists; eexists; split; [reflexivity |]. now apply RunFailed.
  - unfold handler. apply String.eqb_neq in Hm. rewrite Hm. simpl.
    eexists; eexists; split; [reflexivity |]. apply RunNotPost.
    now apply String.eqb_neq.
Qed.

End Frames.

Section TaggerAtLarge.
Context {H : Host}.

(** X1. Whatever the request, the upstream and the state of the process,
    the tagger returns, having sent one of five answers: a status with a
    fixed body. No exception leaves it, and nothing of what the upstream
    said or of an error's text reaches the caller. *)
Theorem tagger_always_answers (req : Req) (res : Res) (w : World) :
  exists r w',
    handler req res w = (Returned r, w')
    /\ exists a, answer r = Some a /\ In a tagger_answers.
Proof.
  destruct (handler_runs req res w) as (r & w' & Hrun & Hkind).
  exists r, w'. split; [exact Hrun |].
  destruct Hkind as [_ | b _ Hv | e _ _ | ? ? ? _ _ _ | ? ? ? ? _ _ _];
    try (eexists; split; [reflexivity |]; simpl; tauto).
  destruct (validate_refused _ _ Hv) as [-> | ->];
    eexists; (split; [reflexivity |]); simpl; tauto.
Qed.

(** X2. The tagger writes to the console exactly when it answers 500, and
    then one line: the error's message after "Kajabi API error:". *)
Theorem errors_are_logged (req : Req) (res : Res) (w : World) :
  exists r w',
    handler req res w = (Returned r, w')
    /\ ((statusCode r = 500%Z
         /\ exists e, console w' = error_line e :: console w)
        \/ (statusCode r <> 500%Z /\ console w' = console w)).
Proof.
  destruct (handler_runs req res w) as (r & w' & Hrun & Hkind).
  exists r, w'. split; [exact Hrun |].
  destruct Hkind as [_ | b _ _ | e _ _ | email tagId w1 _ _ Hs
                     | email tagId e w1 _ _ Hs].
  - right. split; [discriminate | reflexivity].
  - right. split; [discriminate | reflexivity].
  - left. split; [reflexivity |]. now exists e.
  - right. split; [discriminate |].
    now destruct (steps_world _ _ _ _ _ Hs) as (calls & _ & Hc & _).
  - left. split; [reflexivity |]. exists e. simpl.
    destruct (steps_world _ _ _ _ _ Hs) as (calls & _ & Hc & _).
    now rewrite Hc.
Qed.

(** X3. A request the tagger turns away, with 405 or 400, leaves no
    trace: no upstream call, the token cache and the console as they
    were. *)
Theorem refusals_change_nothing
    (req : Req) (res : Res) (w w' : World) (r : Res) :
  handler req res w = (Returned r, w') ->
  statusCode r = 405%Z \/ statusCode r = 400%Z ->
  w' = w.
Proof.
  intros Hrun Hstatus.
  destruct (handler_runs req res w) as (r0 & w0 & Hrun0 & Hkind).
  rewrite Hrun in Hrun0. injection Hrun0 as <- <-.
  destruct Hkind; try reflexivity; simpl in Hstatus;
    destruct Hstatus; discriminate.
Qed.

(** X4. The calls one invocation makes come in a fixed order: at most one
    token exchange, then at most one search, and only after a search at
    most one creation and at most one tag attachment, in that order.
    Four calls at most, none of them twice, no other endpoint. *)
Theorem call_protocol (req : Req) (res : Res) (w : World) :
  exists calls,
    fetched (snd (handler req res w)) = (calls ++ fetched w)%list
    /\ well_ordered (map kind_of (rev calls)) = true.
Proof.
  destruct (handler_runs req res w) as (r & w' & Hrun & Hkind).
  rewrite Hrun. simpl snd.
  destruct Hkind as [_ | b _ _ | e _ _ | email tagId w1 _ _ Hs
                     | email tagId e w1 _ _ Hs];
    try (now exists []).
  - destruct (steps_world _ _ _ _ _ Hs) as (calls & Hf & _ & Hord & _).
    now exists calls.
  - destruct (steps_world _ _ _ _ _ Hs) as (calls & Hf & _ & Hord & _).
    now exists calls.
Qed.

(** X5. While the cached token is good, an invocation neither exchanges
    credentials nor touches the cache, whatever else it does. *)
Theorem warm_invocation (req : Req) (res : Res) (w : World) :
  cache_hit w = true ->
  cachedToken (snd (handler req res w)) = cachedToken w
  /\ tokenExpiresAt (snd (handler req res w)) = tokenExpiresAt w
  /\ exists calls,
       fetched (snd (handler req res w)) = (calls ++ fetched w)%list
       /\ ~ In TokenCall (map kind_of calls).
Proof.
  intros Hhit.
  destruct (handler_runs req res w) as (r & w' & Hrun & Hkind).
  rewrite Hrun. simpl snd.
  destruct Hkind as [_ | b _ _ | e _ _ | email tagId w1 _ _ Hs
                     | email tagId e w1 _ _ Hs];
    try (split; [reflexivity |]; split; [reflexivity |];
         exists []; split; [reflexivity |]; intros []).
  - destruct (steps_world _ _ _ _ _ Hs) as (calls & Hf & _ & _ & Hwarm & _).
    destruct (Hwarm Hhit) as (Htok & Hexp & Hno). eauto.
  - destruct (steps_world _ _ _ _ _ Hs) as (calls & Hf & _ & _ & Hwarm & _).
    destruct (Hwarm Hhit) as (Htok & Hexp & Hno). simpl. eauto.
Qed.

(** X6. Without a good cached token, a POST that passes validation starts
    with the token exchange: it is the first call the invocation makes. *)
Theorem cold_invocation
    (req : Req) (res : Res) (w : World) (email : JSValue) (tagId : Lookup) :
  method req = "POST" ->
  validate (body req) = Accepted email tagId ->
  cache_hit w = false ->
  exists later,
    fetched (snd (handler req res w)) = (later ++ token_call :: fetched w)%list.
Proof.
  intros Hm Hv Hmiss.
  rewrite (handler_calls req res w email tagId Hm Hv).
  destruct (steps email tagId w) as [o w'] eqn:Hs. simpl snd.
  destruct (steps_world _ _ _ _ _ Hs) as (calls & Hf & _ & _ & _ & Hcold).
  destruct (Hcold Hmiss) as [later ->].
  exists later. rewrite Hf. now rewrite <- app_assoc.
Qed.

(** X7. Every call made after the token was obtained carries that token:
    its Authorization header is "Bearer " and the token. *)
Theorem authorized_calls
    (req : Req) (res : Res) (w w1 : World) (email token : JSValue)
    (tagId : Lookup) (bearer : string) :
  method req = "POST" ->
  validate (body req) = Accepted email tagId ->
  getAccessToken w = (Returned token, w1) ->
  ToString token = Returned bearer ->
  exists calls,
    fetched (snd (handler req res w)) = (calls ++ fetched w1)%list
    /\ forall call,
         In call calls ->
         header "Authorization" (init_headers call) = Some ("Bearer " ++ bearer).
Proof.
  intros Hm Hv Hget Htok.
  rewrite (handler_calls req res w email tagId Hm Hv).
  unfold steps. unfold bind at 1. rewrite Hget.
  destruct ((found <- findContactByEmail token email ;;
             contact <- create_if_absent token email found ;;
             attach token contact tagId ;;;
             ret tt) w1) as [o w'] eqn:Hrun.
  destruct (after_token_world _ _ _ _ _ _ Hrun)
    as (calls & Hf & _ & _ & _ & _ & Hauth).
  exists calls. split; [exact Hf |]. intros call Hin. now apply Hauth.
Qed.

(** X8. The tagger answers 200 only when the last thing it did was to
    call the tag endpoint with the tag id that passed validation, and the
    upstream answered that call with a 2xx status. *)
Theorem success_means_tagged
    (req : Req) (res : Res) (w w' : World) (r : Res) :
  handler req res w = (Returned r, w') ->
  statusCode r = 200%Z ->
  exists email tagId bearer id response t w3,
    validate (body req) = Accepted email tagId
    /\ upstream (fetched w3) (clock w3) (tag_call bearer id tagId)
       = (Resolved response, t)
    /\ ok response = true
    /\ w' = after_fetch (tag_call bearer id tagId) t w3.
Proof.
  intros Hrun Hstatus.
  destruct (handler_runs req res w) as (r0 & w0 & Hrun0 & Hkind).
  rewrite Hrun in Hrun0. injection Hrun0 as <- <-.
  destruct Hkind as [_ | b _ _ | e _ _ | email tagId w1 _ Hv Hs
                     | email tagId e w1 _ _ _];
    try discriminate Hstatus.
  exists email, tagId. revert Hs. unfold steps. unfold bind at 1.
  destruct (getAccessToken w) as [[token | e] w2]; [| discriminate].
  unfold bind at 1.
  destruct (findContactByEmail token email w2) as [[found | e] w3];
    [| discriminate].
  unfold bind at 1.
  destruct (create_if_absent token email found w3) as [[contact | e] w4];
    [| discriminate].
  unfold bind at 1.
  pose proof (attach_world token contact tagId w4) as Hattach.
  destruct (attach token contact tagId w4) as [[v | e] w5]; [| discriminate].
  unfold ret. intros Hs. injection Hs as <-.
  destruct Hattach as (bearer & id & response & t & _ & Hup & Hok & Hw).
  exists bearer, id, response, t, w4. auto.
Qed.

End TaggerAtLarge.

Section TokenAtLarge.
Context {H : Host}.

(** X9. When [getAccessToken] throws, the stored expiry is what it was.
    The stored token is too, with one exception: the token of the answer
    is assigned before the lifetime is converted to a number, so when
    that conversion throws the new token is already in the cache, under
    the old expiry. *)
Theorem throwing_exchange_and_cache (w w' : World) (e : JSError) :
  getAccessToken w = (Thrown e, w') ->
  tokenExpiresAt w' = tokenExpiresAt w
  /\ (cachedToken w' = cachedToken w
      \/ exists response t text data lifetime,
           upstream (fetched w) (clock w) token_call = (Resolved response, t)
           /\ resp_body response = BodyText text
           /\ JSON_parse text = Some data
           /\ get_prop data k_access_token = Returned (cachedToken w')
           /\ get_prop data k_expires_in = Returned lifetime
           /\ ToNumber lifetime = Thrown e).
Proof.
  destruct (cache_hit w) eqn:Hhit.
  - rewrite (getAccessToken_hit w Hhit). discriminate.
  - rewrite (getAccessToken_miss w Hhit). unfold after_fetch.
    destruct (upstream (fetched w) (clock w) token_call)
      as [[response | e0] t] eqn:Hup.
    2:{ intros Hr. injection Hr as <- <-. auto. }
    destruct (negb (ok response)).
    { intros Hr. injection Hr as <- <-. auto. }
    unfold_monad.
    destruct (resp_body response) as [text | e0] eqn:Hbody; unfold_monad.
    2:{ intros Hr. injection Hr as <- <-. auto. }
    destruct (JSON_parse text) as [data |] eqn:Hparse; unfold_monad.
    2:{ intros Hr. injection Hr as <- <-. auto. }
    destruct (get_prop data k_access_token) as [token | e0] eqn:Htok.
    2:{ intros Hr. injection Hr as <- <-. auto. }
    destruct (get_prop data k_expires_in) as [lifetime | e0] eqn:Hexp.
    2:{ destruct (get_prop_defined _ _ _ k_expires_in Htok) as [y Hy].
        congruence. }
    destruct (ToNumber lifetime) as [n | e0] eqn:Hnum; [discriminate |].
    intros Hr. injection Hr as <- <-. simpl. split; [reflexivity |].
    right. exists response, t, text, data, lifetime. auto 10.
Qed.

Lemma add_nan (t x : float) :
  FloatOps.Prim2SF x = SpecFloat.S754_nan ->
  FloatOps.Prim2SF (t + x) = SpecFloat.S754_nan.
Proof.
  intros Hx. rewrite FloatAxioms.add_spec, Hx.
  now destruct (FloatOps.Prim2SF t).
Qed.

Lemma ltb_nan (now expiry : float) :
  FloatOps.Prim2SF expiry = SpecFloat.S754_nan -> (now <? expiry)%float = false.
Proof.
  intros Hx. rewrite FloatAxioms.ltb_spec, Hx.
  now destruct (FloatOps.Prim2SF now).
Qed.

(** X10. When the answer of a successful exchange has no [expires_in],
    the token is stored with the expiry [NaN], which no time is before:
    the token is never served from the cache, and every later call
    exchanges again. *)
Theorem missing_lifetime_defeats_cache
    (w : World) (response : FetchResponse) (t : float) (text : string)
    (data access_token : JSValue) :
  cache_hit w = false ->
  upstream (fetched w) (clock w) token_call = (Resolved response, t) ->
  ok response = true ->
  resp_body response = BodyText text ->
  JSON_parse text = Some data ->
  get_prop data k_access_token = Returned access_token ->
  get_prop data k_expires_in = Returned JSUndefined ->
  exists w1,
    getAccessToken w = (Returned access_token, w1)
    /\ cachedToken w1 = access_token
    /\ forall later,
         tokenExpiresAt later = tokenExpiresAt w1 ->
         cache_hit later = false
         /\ fetched (snd (getAccessToken later)) = token_call :: fetched later.
Proof.
  intros Hmiss Hup Hok Hbody Hparse Htok Hexp.
  rewrite (getAccessToken_miss w Hmiss), Hup, Hok. run.
  rewrite Hbody, Hparse. run. rewrite Htok, Hexp. simpl.
  eexists. split; [reflexivity |]. split; [reflexivity |].
  intros later Hlater. simpl in Hlater.
  assert (Hcold : cache_hit later = false).
  { unfold cache_hit. rewrite Hlater.
    rewrite (ltb_nan (clock later)); [apply andb_false_r |].
    now apply add_nan. }
  split; [exact Hcold |]. now apply getAccessToken_miss_fetched.
Qed.

End TokenAtLarge.

Section SearchAtLarge.
Context {H : Host}.

(** On an entry without a string [attributes.email] the callback of
    [find] throws a [TypeError]. *)
Lemma same_email_malformed (email : string) (contact : JSValue) :
  contact_email contact = None ->
  exists e,
    same_email (JSString email) contact = Thrown e
    /\ err_name e = "TypeError".
Proof.
  unfold contact_email, same_email. intros Hnone.
  destruct contact; simpl in *;
    try (eexists; split; reflexivity).
  destruct (own_property props "attributes") as [[] |]; simpl in *;
    try (eexists; split; reflexivity).
  destruct (own_property props0 "email") as [[] |]; simpl in *;
    try discriminate; eexists; split; reflexivity.
Qed.

(** What [findContactByEmail] does with the list a successful search
    returned. *)
Lemma findContactByEmail_found
    (token : JSValue) (bearer email : string) (w : World)
    (response : FetchResponse) (text : string) (t : float)
    (data : JSValue) (results : list JSValue) :
  ToString token = Returned bearer ->
  upstream (fetched w) (clock w) (search_call bearer email)
  = (Resolved response, t) ->
  ok response = true ->
  resp_body response = BodyText text ->
  JSON_parse text = Some data ->
  get_prop data k_data = Returned (JSArray results) ->
  findContactByEmail token (JSString email) w
  = match Array_find (same_email (JSString email)) results with
    | Returned found =>
        (Returned (if truthy found then found else JSNull),
         after_fetch (search_call bearer email) t w)
    | Thrown e => (Thrown e, after_fetch (search_call bearer email) t w)
    end.
Proof.
  intros Htok Hup Hok Hbody Hparse Hdata.
  unfold findContactByEmail. run. rewrite Htok. run. rewrite Hup, Hok. run.
  rewrite Hbody, Hparse. run. rewrite Hdata. simpl.
  destruct (Array_find (same_email (JSString email)) results); reflexivity.
Qed.

Lemma Array_find_first (email : string) (before after : list JSValue)
    (contact : JSValue) :
  Forall well_formed before ->
  Forall (fun c => exact_match email c = false) before ->
  Array_find (same_email (JSString email)) (before ++ contact :: after)
  = match same_email (JSString email) contact with
    | Returned true => Returned contact
    | Returned false => Array_find (same_email (JSString email)) after
    | Thrown e => Thrown e
    end.
Proof.
  intros Hwf Hno. induction before as [| c rest IH]; [reflexivity |].
  inversion Hwf as [| ? ? Hc Hrest]; subst.
  inversion Hno as [| ? ? Hcno Hrestno]; subst.
  simpl. rewrite (same_email_exact email c Hc), Hcno. now apply IH.
Qed.

(** X11. The search stops at the first exact match: when the entries
    before it are contacts with other emails, that contact is returned
    whatever follows it in the list, well-formed or not. *)
Theorem first_match_wins
    (token : JSValue) (bearer email text : string) (w : World)
    (code : Z) (t : float) (data contact : JSValue)
    (before after : list JSValue) :
  ToString token = Returned bearer ->
  upstream (fetched w) (clock w) (search_call bearer email)
  = (Resolved (mkResponse code (BodyText text)), t) ->
  (200 <= code < 300)%Z ->
  JSON_parse text = Some data ->
  get_prop data k_data = Returned (JSArray (before ++ contact :: after)) ->
  Forall well_formed before ->
  Forall (fun c => exact_match email c = false) before ->
  exact_match email contact = true ->
  findContactByEmail token (JSString email) w
  = (Returned contact, after_fetch (search_call bearer email) t w).
Proof.
  intros Htok Hup Hcode Hparse Hdata Hwf Hno Hmatch.
  assert (Hok : ok (mkResponse code (BodyText text)) = true).
  { unfold ok; simpl. apply andb_true_intro.
    split; [apply Z.leb_le | apply Z.ltb_lt]; lia. }
  rewrite (findContactByEmail_found token bearer email w _ text t data _
             Htok Hup Hok eq_refl Hparse Hdata).
  rewrite (Array_find_first email before after contact Hwf Hno).
  assert (Hc : well_formed contact).
  { unfold well_formed. unfold exact_match in Hmatch.
    destruct (contact_email contact); [eauto | discriminate]. }
  rewrite (same_email_exact email contact Hc), Hmatch.
  destruct (well_formed_object contact Hc) as [props ->]. reflexivity.
Qed.

(** X12. An entry without a string email that comes before any exact
    match makes the search throw a [TypeError], after the search call and
    before anything is selected. *)
Theorem malformed_entry_throws
    (token : JSValue) (bearer email text : string) (w : World)
    (code : Z) (t : float) (data bad : JSValue)
    (before after : list JSValue) :
  ToString token = Returned bearer ->
  upstream (fetched w) (clock w) (search_call bearer email)
  = (Resolved (mkResponse code (BodyText text)), t) ->
  (200 <= code < 300)%Z ->
  JSON_parse text = Some data ->
  get_prop data k_data = Returned (JSArray (before ++ bad :: after)) ->
  Forall well_formed before ->
  Forall (fun c => exact_match email c = false) before ->
  contact_email bad = None ->
  exists e,
    err_name e = "TypeError"
    /\ findContactByEmail token (JSString email) w
       = (Thrown e, after_fetch (search_call bearer email) t w).
Proof.
  intros Htok Hup Hcode Hparse Hdata Hwf Hno Hbad.
  assert (Hok : ok (mkResponse code (BodyText text)) = true).
  { unfold ok; simpl. apply andb_true_intro.
    split; [apply Z.leb_le | apply Z.ltb_lt]; lia. }
  rewrite (findContactByEmail_found token bearer email w _ text t data _
             Htok Hup Hok eq_refl Hparse Hdata).
  rewrite (Array_find_first email before after bad Hwf Hno).
  destruct (same_email_malformed email bad Hbad) as (e & -> & Hname).
  now exists e.
Qed.

End SearchAtLarge.

Section EdgesAtLarge.
Context {H : Host}.

(** X13. The tag is attached, the upstream says so with a 2xx status,
    but its answer is not a JSON text (an empty body, say): reading the
    answer throws, and the tagger answers 500 although every call it
    made succeeded. *)
Theorem unparsed_tag_answer_is_500
    (req : Req) (res : Res) (w w1 w2 w3 : World)
    (email token found contact id : JSValue) (tagId : Lookup)
    (bearer ids text : string) (code : Z) (t : float) :
  method req = "POST" ->
  validate (body req) = Accepted email tagId ->
  getAccessToken w = (Returned token, w1) ->
  findContactByEmail token email w1 = (Returned found, w2) ->
  create_if_absent token email found w2 = (Returned contact, w3) ->
  get_prop contact k_id = Returned id ->
  ToString id = Returned ids ->
  ToString token = Returned bearer ->
  upstream (fetched w3) (clock w3) (tag_call bearer ids tagId)
  = (Resolved (mkResponse code (BodyText text)), t) ->
  (200 <= code < 300)%Z ->
  JSON_parse text = None ->
  exists e,
    handler req res w
    = (Returned (json server_error (status 500 (KajabiTag.cors res))),
       logged (error_line e) (after_fetch (tag_call bearer ids tagId) t w3)).
Proof.
  intros Hm Hv Hget Hfind Hcreate Hid Hids Htok Hup Hcode Hparse.
  assert (Hok : ok (mkResponse code (BodyText text)) = true).
  { unfold ok; simpl. apply andb_true_intro.
    split; [apply Z.leb_le | apply Z.ltb_lt]; lia. }
  rewrite (handler_post req res w Hm), Hv.
  unfold steps. unfold bind at 1. rewrite Hget.
  unfold bind at 1. rewrite Hfind.
  unfold bind at 1. rewrite Hcreate.
  unfold attach, addTagToContact. run.
  rewrite Hid, Hids, Htok. run. rewrite Hup, Hok. run. rewrite Hparse.
  eexists. reflexivity.
Qed.

Lemma lookup_tagMap (key : string) :
  lookup tagMap key
  = match tag_variable key with
    | Some variable => Own (env_value variable)
    | None => if inherited key then Inherited key else Absent
    end.
Proof.
  unfold tag_variable.
  cbv beta iota fix delta [own_property lookup tagMap].
  destruct ("contractor" =? key); [reflexivity |].
  destruct ("diy" =? key); [reflexivity |].
  destruct ("waitlist" =? key); reflexivity.
Qed.

(** X14. Once the email has passed, the answer is 400 "Invalid tag..."
    exactly when the tag, as a property key, is a recognized name whose
    environment variable is unset or empty, or is neither a recognized
    name nor a member of [Object.prototype]. A recognized name with its
    variable set passes, and so does [constructor] or [toString]. *)
Theorem invalid_tag_iff
    (req : Req) (res : Res) (w : World) (email tag : JSValue) (key : string) :
  method req = "POST" ->
  get_prop (body req) k_email = Returned email ->
  get_prop (body req) k_tag = Returned tag ->
  truthy email = true ->
  call_includes email "@" = Returned true ->
  ToPropertyKey tag = Returned key ->
  (fst (handler req res w)
   = Returned (json invalid_tag (status 400 (KajabiTag.cors res)))
   <-> match tag_variable key with
       | Some variable => variable = None \/ variable = Some ""
       | None => inherited key = false
       end).
Proof.
  intros Hm He Ht Htruthy Hat Hkey.
  rewrite (handler_post req res w Hm). unfold validate.
  rewrite He, Ht, Htruthy, Hat, Hkey, lookup_tagMap.
  destruct (tag_variable key) as [[id |] |]; simpl.
  - destruct (String.eqb_spec id "") as [-> | Hne]; simpl.
    + split; auto.
    + split.
      * destruct (steps email (Own (JSString id)) w) as [[r | e] w']; differ.
      * intros [Hn | Hs]; [discriminate | congruence].
  - split; auto.
  - destruct (inherited key); simpl.
    + split; [| discriminate].
      destruct (steps email (Inherited key) w) as [[r | e] w']; differ.
    + split; auto.
Qed.

Lemma ok_range (code : Z) (read : BodyRead) :
  ok (mkResponse code read) = true <-> (200 <= code < 300)%Z.
Proof.
  unfold ok; simpl. rewrite andb_true_iff, Z.leb_le, Z.ltb_lt. tauto.
Qed.

(** X18. The two writes return in one case only: the upstream answered
    the call with a 2xx status and a JSON text, which is what they
    return, and the call is the one trace they leave. A rejected
    [fetch], any other status, an unreadable body or a text that is no
    JSON all make them throw. *)
Theorem writes_return_iff
    (token email contactId answered : JSValue) (tagId : Lookup)
    (w w' : World) :
  (createContact token email w = (Returned answered, w')
   <-> exists bearer code text t,
         ToString token = Returned bearer
         /\ upstream (fetched w) (clock w) (create_call bearer email)
            = (Resolved (mkResponse code (BodyText text)), t)
         /\ (200 <= code < 300)%Z
         /\ JSON_parse text = Some answered
         /\ w' = after_fetch (create_call bearer email) t w)
  /\ (addTagToContact token contactId tagId w = (Returned answered, w')
      <-> exists bearer id code text t,
            ToString token = Returned bearer
            /\ ToString contactId = Returned id
            /\ upstream (fetched w) (clock w) (tag_call bearer id tagId)
               = (Resolved (mkResponse code (BodyText text)), t)
            /\ (200 <= code < 300)%Z
            /\ JSON_parse text = Some answered
            /\ w' = after_fetch (tag_call bearer id tagId) t w).
Proof.
  split; split.
  - intros Hrun. pose proof (createContact_world token email w) as Hw.
    rewrite Hrun in Hw.
    destruct Hw as (bearer & [code read] & text & t
                    & Htok & Hup & Hok & Hbody & Hparse & Hw).
    simpl in Hbody. subst read. apply ok_range in Hok. eauto 10.
  - intros (bearer & code & text & t & Htok & Hup & Hcode & Hparse & ->).
    apply (ok_range code (BodyText text)) in Hcode.
    unfold createContact. run. rewrite Htok. run. rewrite Hup, Hcode. run.
    now rewrite Hparse.
  - intros Hrun.
    pose proof (addTagToContact_world token contactId tagId w) as Hw.
    rewrite Hrun in Hw.
    destruct Hw as (bearer & id & [code read] & text & t
                    & Htok & Hid & Hup & Hok & Hbody & Hparse & Hw).
    simpl in Hbody. subst read. apply ok_range in Hok. eauto 12.
  - intros (bearer & id & code & text & t
            & Htok & Hid & Hup & Hcode & Hparse & ->).
    apply (ok_range code (BodyText text)) in Hcode.
    unfold addTagToContact. run. rewrite Hid, Htok. run.
    rewrite Hup, Hcode. run. now rewrite Hparse.
Qed.

End EdgesAtLarge.

Section RelaysAtLarge.
Context {H : Host}.

(** X15. Both relays always return, with status 200, 405 or 500, and call
    the webhook exactly once for a POST and never otherwise; neither ever
    touches the token cache. *)
Theorem relays_answer_and_forward_once (req : Req) (res : Res) (w : World) :
  (exists r w',
      Relay.handler req res w = (Returned r, w')
      /\ In (statusCode r) relay_statuses
      /\ fetched w'
         = (if method req =? "POST" then [Relay.webhook_call req] else [])
           ++ fetched w
      /\ cachedToken w' = cachedToken w
      /\ tokenExpiresAt w' = tokenExpiresAt w)%list
  /\ (exists r w',
         RelayFixed.handler req res w = (Returned r, w')
         /\ In (statusCode r) relay_statuses
         /\ fetched w'
            = (if method req =? "POST" then [Relay.webhook_call req] else [])
              ++ fetched w
         /\ cachedToken w' = cachedToken w
         /\ tokenExpiresAt w' = tokenExpiresAt w)%list.
Proof.
  unfold Relay.handler, RelayFixed.handler, Relay.forward, relay_statuses.
  destruct (String.eqb_spec (method req) "POST") as [Hm | Hm].
  - rewrite Hm. change ("POST" =? "OPTIONS") with false.
    cbv beta iota zeta delta [negb try_catch bind fetch response_text ret
                              throw console_error].
    change (mkFetch RelayFixed.MAKE_WEBHOOK_URL (Some "POST")
              [("Content-Type", "application/json")] (JSONBody (body req)))
      with (Relay.webhook_call req).
    destruct (upstream (fetched w) (clock w) (Relay.webhook_call req))
      as [[response | e] t].
    + destruct (resp_body response); split; eexists; eexists;
        (split; [reflexivity |]); simpl; tauto.
    + split; eexists; eexists; (split; [reflexivity |]); simpl; tauto.
  - cbv beta iota zeta delta [negb ret].
    destruct (method req =? "OPTIONS");
      split; eexists; eexists; (split; [reflexivity |]); simpl; tauto.
Qed.

(** X16. Every response of the "FIXED" relay carries the three CORS
    headers, whatever the method, the upstream and the headers the
    response had before. *)
Theorem fixed_relay_always_cors (req : Req) (res : Res) (w : World) :
  exists r w',
    RelayFixed.handler req res w = (Returned r, w')
    /\ header "Access-Control-Allow-Origin" (headers r) = Some "*"
    /\ header "Access-Control-Allow-Methods" (headers r) = Some "POST, OPTIONS"
    /\ header "Access-Control-Allow-Headers" (headers r) = Some "Content-Type".
Proof.
  pose proof (cors_headers res) as Hcors. cbv zeta in Hcors.
  unfold RelayFixed.handler.
  change (setHeader "Access-Control-Allow-Headers" "Content-Type"
            (setHeader "Access-Control-Allow-Methods" "POST, OPTIONS"
               (setHeader "Access-Control-Allow-Origin" "*" res)))
    with (Relay.cors res).
  cbv beta iota zeta delta [try_catch bind fetch response_text ret throw
                            console_error].
  destruct (method req =? "OPTIONS");
    [eexists; eexists; split; [reflexivity | exact Hcors] |].
  destruct (negb (method req =? "POST"));
    [eexists; eexists; split; [reflexivity | exact Hcors] |].
  destruct (upstream (fetched w) (clock w) _) as [[response | e] t].
  - destruct (resp_body response);
      eexists; eexists; (split; [reflexivity | exact Hcors]).
  - eexists; eexists; (split; [reflexivity | exact Hcors]).
Qed.

(** X17. The tagger and the relay as first written set the three CORS
    headers on every answer to a POST, the 400s and 500s included, and
    leave the headers of every other answer as they found them. *)
Theorem cors_only_on_post (req : Req) (res : Res) (w : World) :
  (exists r w',
      KajabiTag.handler req res w = (Returned r, w')
      /\ headers r
         = if method req =? "POST" then headers (KajabiTag.cors res)
           else headers res)
  /\ (exists r w',
         Relay.handler req res w = (Returned r, w')
         /\ headers r
            = if method req =? "POST" then headers (Relay.cors res)
              else headers res)
  /\ (header "Access-Control-Allow-Origin" (headers (KajabiTag.cors res))
      = Some "*"
      /\ header "Access-Control-Allow-Methods" (headers (KajabiTag.cors res))
         = Some "POST, OPTIONS"
      /\ header "Access-Control-Allow-Headers" (headers (KajabiTag.cors res))
         = Some "Content-Type").
Proof.
  split; [| split; [| exact (cors_headers res)]].
  - destruct (handler_runs req res w) as (r & w' & Hrun & Hkind).
    exists r, w'. split; [exact Hrun |].
    destruct Hkind as [Hm | b Hm _ | e Hm _ | ? ? ? Hm _ _ | ? ? ? ? Hm _ _];
      try (rewrite Hm; reflexivity).
    apply String.eqb_neq in Hm. now rewrite Hm.
  - unfold Relay.handler, Relay.forward.
    destruct (String.eqb_spec (method req) "POST") as [Hm | Hm].
    + rewrite Hm. change ("POST" =? "OPTIONS") with false.
      cbv beta iota zeta delta [negb try_catch bind fetch response_text ret
                                throw console_error].
      destruct (upstream (fetched w) (clock w) (Relay.webhook_call req))
        as [[response | e] t].
      * destruct (resp_body response); eexists; eexists; split; reflexivity.
      * eexists; eexists; split; reflexivity.
    + cbv beta iota zeta delta [negb ret].
      eexists; eexists; split; reflexivity.
Qed.

End RelaysAtLarge.

(** * The theorems at work, and where the specification departs *)

Section Runs.
Import Fixture.

(** The token cache at work: a warm cache answers without a call, a
    stale one exchanges once, and a fresh process stores the token with
    its expiry 3300 s after the exchange completed at 1040. *)
Lemma token_cache_witness :
  getAccessToken (H := host healthy) warm = (Returned (JSString "tok-1"), warm)
  /\ fetched (snd (getAccessToken (H := host healthy) stale)) = [token_call (H := host healthy)]
  /\ getAccessToken (H := host healthy) (loaded 1000)
     = (Returned (JSString "tok-1"),
        mkWorld (JSString "tok-1") 3301040 1040 [token_call (H := host healthy)] []).
Proof.
  split; [| split].
  - apply (proj1 (token_cache (H := host healthy) warm)); reflexivity.
  - apply (proj1 (proj2 (token_cache (H := host healthy) stale))); reflexivity.
  - apply (proj2 (proj2 (token_cache (H := host healthy) (loaded 1000)))
             (mkResponse 200 (BodyText token_text)) 1040%float token_text
             (JSObject [("access_token", JSString "tok-1");
                        ("token_type", JSString "Bearer");
                        ("expires_in", JSNumber 3600)])
             (JSString "tok-1") 3600%float);
      reflexivity.
Defined.

(** Refused credentials: the call throws and the stale token stays. *)
Lemma failed_exchange_witness :
  exists e w',
    getAccessToken (H := host unauthorized) stale = (Thrown e, w')
    /\ cachedToken w' = JSString "tok-1"
    /\ tokenExpiresAt w' = 3301040%float.
Proof.
  apply (failed_exchange_keeps_cache (H := host unauthorized) stale
           (responds 401 (dq "{'error':'invalid_client'}")) 3301080%float);
    reflexivity.
Defined.

(** The search for [anne2@x.com] brings back [anne@x.com] only: nothing
    is selected and a contact is created. The search for [Foo@Bar.com]
    brings back [food@bar.com] and [foo@bar.com]: the second is selected,
    nothing is created, and the tag goes to contact 4. The search for an
    address in accented capitals brings back the same address in small
    letters: it is selected, and nothing is created. *)
Lemma contact_resolution_witness :
  (findContactByEmail (H := host healthy)
     (JSString "tok-1") (JSString "anne2@x.com")
     (snd (getAccessToken (H := host healthy) (loaded 1000)))
   = (Returned JSNull,
      after_fetch (search_call (H := host healthy) "tok-1" "anne2@x.com")
        1080%float (snd (getAccessToken (H := host healthy) (loaded 1000))))
   /\ exists calls,
        fetched (snd (handler (H := host healthy)
                        (tag_request "anne2@x.com" "diy") fresh_res (loaded 1000)))
        = calls /\ existsb is_create calls = true)
  /\ (fst (findContactByEmail (H := host known)
             (JSString "tok-1") (JSString "Foo@Bar.com")
             (snd (getAccessToken (H := host known) (loaded 1000))))
      = Returned (JSObject [("id", JSString "4"); ("type", JSString "contacts");
                            ("attributes",
                             JSObject [("email", JSString "foo@bar.com")])])
      /\ map url (fetched (snd (handler (H := host known)
                                  (tag_request "Foo@Bar.com" "diy") fresh_res
                                  (loaded 1000))))
         = ["https://api.kajabi.com/v1/contacts/4/relationships/tags";
            "https://api.kajabi.com/v1/contacts?filter%5Bsite_id%5D=site-9&filter%5Bsearch%5D=Foo%40Bar.com";
            "https://api.kajabi.com/v1/oauth/token"])
  /\ (fst (findContactByEmail (H := host accented)
             (JSString "tok-1") (JSString ANNE)
             (snd (getAccessToken (H := host accented) (loaded 1000))))
      = Returned (JSObject [("id", JSString "7"); ("type", JSString "contacts");
                            ("attributes",
                             JSObject [("email",
                                        JSString (String "228"%char "nne@x.com"))])])
      /\ map url (fetched (snd (handler (H := host accented)
                                  (tag_request ANNE "diy") fresh_res
                                  (loaded 1000))))
         = ["https://api.kajabi.com/v1/contacts/7/relationships/tags";
            "https://api.kajabi.com/v1/contacts?filter%5Bsite_id%5D=site-9&filter%5Bsearch%5D=%C3%84NNE%40x.com";
            "https://api.kajabi.com/v1/oauth/token"]).
Proof.
  split; [| split].
  - edestruct (contact_resolution (H := host healthy)
                 (tag_request "anne2@x.com" "diy") fresh_res (loaded 1000))
      as [Hfind [_ [[calls [Hcalls Hcreate]] _]]];
      [reflexivity | reflexivity | reflexivity | reflexivity | reflexivity
      | exact (conj (Z.le_refl 200) eq_refl) | reflexivity | reflexivity
      | repeat constructor; eexists; reflexivity |].
    split; [exact Hfind |].
    exists calls. split; [exact (eq_trans Hcalls (app_nil_r calls)) |].
    now apply Hcreate.
  - edestruct (contact_resolution (H := host known)
                 (tag_request "Foo@Bar.com" "diy") fresh_res (loaded 1000))
      as [Hfind [_ [_ Htag]]];
      [reflexivity | reflexivity | reflexivity | reflexivity | reflexivity
      | exact (conj (Z.le_refl 200) eq_refl) | reflexivity | reflexivity
      | repeat constructor; eexists; reflexivity |].
    split; [exact (f_equal fst Hfind) |].
    exact (f_equal (map url)
             (Htag _ (JSString "4") "4" eq_refl eq_refl eq_refl)).
  - edestruct (contact_resolution (H := host accented)
                 (tag_request ANNE "diy") fresh_res (loaded 1000))
      as [Hfind [_ [_ Htag]]];
      [reflexivity | reflexivity | reflexivity | reflexivity | reflexivity
      | exact (conj (Z.le_refl 200) eq_refl) | reflexivity | reflexivity
      | repeat constructor; eexists; reflexivity |].
    split; [exact (f_equal fst Hfind) |].
    exact (f_equal (map url)
             (Htag _ (JSString "7") "7" eq_refl eq_refl eq_refl)).
Defined.

(** The upstream says [OK], with whatever status: the relay answers 200
    [{message:"OK"}]. The upstream cannot be reached: 500. *)
Lemma relay_forwards_witness :
  Relay.handler (H := host healthy) (post JSNull) fresh_res (loaded 1000)
  = (Returned
       (mkRes 200
          [("Access-Control-Allow-Origin", "*");
           ("Access-Control-Allow-Methods", "POST, OPTIONS");
           ("Access-Control-Allow-Headers", "Content-Type")]
          (Some (JsonBody (JSObject [("message", JSString "OK")])))),
     after_fetch (Relay.webhook_call (post JSNull)) 1040%float (loaded 1000))
  /\ fst (Relay.handler (H := host offline) (post JSNull) fresh_res (loaded 1000))
     = Returned
         (mkRes 500
            [("Access-Control-Allow-Origin", "*");
             ("Access-Control-Allow-Methods", "POST, OPTIONS");
             ("Access-Control-Allow-Headers", "Content-Type")]
            (Some (JsonBody
                     (JSObject
                        [("error", JSString "Failed to connect to Make.com");
                         ("details", JSString "getaddrinfo ENOTFOUND")])))).
Proof.
  split.
  - exact (proj1 (relay_forwards (H := host healthy) (post JSNull) fresh_res
                    (loaded 1000) eq_refl)
             200%Z "OK" 1040%float eq_refl).
  - exact (f_equal fst
             (proj2 (relay_forwards (H := host offline) (post JSNull) fresh_res
                       (loaded 1000) eq_refl)
                network_down 1040%float
                (mkError "FetchError" "getaddrinfo ENOTFOUND")
                eq_refl (or_introl eq_refl))).
Defined.

(** A valid email with the tag [bogus]: 400, and nothing was fetched. *)
Lemma unrecognized_tag_witness :
  handler (H := host healthy) (tag_request "anne2@x.com" "bogus") fresh_res
    (loaded 1000)
  = (Returned (json invalid_tag (status 400 (cors fresh_res))), loaded 1000).
Proof.
  apply (unrecognized_tag_refused (H := host healthy)
           (tag_request "anne2@x.com" "bogus") fresh_res (loaded 1000)
           (JSString "anne2@x.com") (JSString "bogus") "bogus");
    try reflexivity.
  intros [E | [E | [E | []]]]; discriminate E.
Defined.

(** C5 as stated fails twice. A POST with the tag [bogus] and no email is
    answered with the email message, not the tag message. A POST with a
    valid email and the tag [constructor], which is no recognized name, is
    not refused at all: [tagMap.constructor] is the inherited [Object]
    function, so the handler goes on to fetch a token, search, create the
    contact and attach a tag without an id, and answers 200. *)
Lemma unrecognized_tag_counterexample :
  (~ In "bogus" recognized_tags
   /\ handler (H := host healthy) (post (JSObject [("tag", JSString "bogus")]))
        fresh_res (loaded 1000)
      = (Returned (json valid_email_required (status 400 (cors fresh_res))),
         loaded 1000))
  /\ (~ In "constructor" recognized_tags
      /\ fst (handler (H := host healthy)
                (tag_request "anne2@x.com" "constructor") fresh_res (loaded 1000))
         = Returned (json ok_true (status 200 (cors fresh_res)))
      /\ map url (fetched (snd (handler (H := host healthy)
                                  (tag_request "anne2@x.com" "constructor")
                                  fresh_res (loaded 1000))))
         = ["https://api.kajabi.com/v1/contacts/18/relationships/tags";
            "https://api.kajabi.com/v1/contacts";
            "https://api.kajabi.com/v1/contacts?filter%5Bsite_id%5D=site-9&filter%5Bsearch%5D=anne2%40x.com";
            "https://api.kajabi.com/v1/oauth/token"]).
Proof.
  split; split.
  - intros [E | [E | [E | []]]]; discriminate E.
  - reflexivity.
  - intros [E | [E | [E | []]]]; discriminate E.
  - split; reflexivity.
Qed.

(** An email without [@]: 400 "Valid email required". *)
Lemma valid_email_required_witness :
  fst (handler (H := host healthy) (tag_request "anne.x.com" "diy") fresh_res
         (loaded 1000))
  = Returned (json valid_email_required (status 400 (cors fresh_res))).
Proof.
  apply (proj2 (valid_email_required_iff (H := host healthy)
                  (tag_request "anne.x.com" "diy") fresh_res (loaded 1000)
                  eq_refl)).
  exists (JSString "anne.x.com"). split; [reflexivity | right; reflexivity].
Defined.

(** C6 as stated fails where C10 holds: with no body the email is missing,
    and with the email [12345] it contains no [@], yet the answer is 500,
    not 400. *)
Lemma valid_email_counterexample :
  (missing_or_lacks_at JSUndefined = true
   /\ fst (handler (H := host healthy) (post JSUndefined) fresh_res (loaded 1000))
      = Returned (json server_error (status 500 (cors fresh_res))))
  /\ (missing_or_lacks_at
        (JSObject [("email", JSNumber 12345); ("tag", JSString "diy")]) = true
      /\ fst (handler (H := host healthy)
                (post (JSObject [("email", JSNumber 12345);
                                 ("tag", JSString "diy")]))
                fresh_res (loaded 1000))
         = Returned (json server_error (status 500 (cors fresh_res)))).
Proof. repeat split. Qed.

(** All is well: 200. The tag cannot be attached after the contact was
    created: the same 500 as for any failure. *)
Lemma all_or_nothing_witness :
  (exists r w',
      handler (H := host healthy) (tag_request "anne2@x.com" "diy") fresh_res
        (loaded 1000) = (Returned r, w')
      /\ r = json ok_true (status 200 (cors fresh_res)))
  /\ (exists r w',
         handler (H := host tag_refused) (tag_request "anne2@x.com" "diy")
           fresh_res (loaded 1000) = (Returned r, w')
         /\ failed_step (H := host tag_refused) (JSString "anne2@x.com")
              (Own (JSString "tag-diy")) (loaded 1000) = Some TagAttachment
         /\ r = json server_error (status 500 (cors fresh_res))).
Proof.
  split.
  - destruct (all_or_nothing (H := host healthy)
                (tag_request "anne2@x.com" "diy") fresh_res (loaded 1000)
                (JSString "anne2@x.com") (Own (JSString "tag-diy"))
                eq_refl eq_refl) as [r [w' [Hrun [_ Hok]]]].
    exists r, w'. split; [exact Hrun | exact (proj2 Hok eq_refl)].
  - destruct (all_or_nothing (H := host tag_refused)
                (tag_request "anne2@x.com" "diy") fresh_res (loaded 1000)
                (JSString "anne2@x.com") (Own (JSString "tag-diy"))
                eq_refl eq_refl) as [r [w' [Hrun [Hfail _]]]].
    exists r, w'. split; [exact Hrun |].
    split; [reflexivity | exact (Hfail TagAttachment eq_refl)].
Defined.

(** The two relays on the same POST, and on a GET. *)
Lemma relay_variants_witness :
  RelayFixed.handler (H := host healthy) (post JSNull) fresh_res (loaded 1000)
  = Relay.handler (H := host healthy) (post JSNull) fresh_res (loaded 1000)
  /\ (Relay.handler (H := host healthy) (mkReq "GET" JSUndefined) fresh_res
        (loaded 1000)
      = (Returned (mkRes 405 [] (Some (JsonBody Relay.method_not_allowed))),
         loaded 1000)
      /\ RelayFixed.handler (H := host healthy) (mkReq "GET" JSUndefined)
           fresh_res (loaded 1000)
         = (Returned
              (mkRes 405
                 [("Access-Control-Allow-Origin", "*");
                  ("Access-Control-Allow-Methods", "POST, OPTIONS");
                  ("Access-Control-Allow-Headers", "Content-Type")]
                 (Some (JsonBody Relay.method_not_allowed))),
            loaded 1000)).
Proof.
  split.
  - exact (proj1 (relay_variants (H := host healthy) (post JSNull) fresh_res
                    (loaded 1000)) eq_refl).
  - apply (proj1 (proj2 (relay_variants (H := host healthy)
                           (mkReq "GET" JSUndefined) fresh_res (loaded 1000))));
      discriminate.
Defined.

(** C8 as stated fails on a GET: the answer of the relay as first written
    carries no CORS header, the answer of the "FIXED" one carries three. *)
Lemma relay_variants_counterexample :
  method (mkReq "GET" JSUndefined) <> "POST"
  /\ method (mkReq "GET" JSUndefined) <> "OPTIONS"
  /\ header "Access-Control-Allow-Origin"
       match fst (Relay.handler (H := host healthy) (mkReq "GET" JSUndefined)
                    fresh_res (loaded 1000)) with
       | Returned r => headers r
       | Thrown _ => []
       end = None
  /\ header "Access-Control-Allow-Origin"
       match fst (RelayFixed.handler (H := host healthy)
                    (mkReq "GET" JSUndefined) fresh_res (loaded 1000)) with
       | Returned r => headers r
       | Thrown _ => []
       end = Some "*"
  /\ Relay.handler (H := host healthy) (mkReq "GET" JSUndefined) fresh_res
       (loaded 1000)
     <> RelayFixed.handler (H := host healthy) (mkReq "GET" JSUndefined)
          fresh_res (loaded 1000).
Proof. repeat split; discriminate. Qed.

(** No body, and an email that is a number: 500, the error caught. *)
Lemma malformed_post_witness :
  (exists e,
      err_name e = "TypeError"
      /\ handler (H := host healthy) (post JSUndefined) fresh_res (loaded 1000)
         = (Returned (json server_error (status 500 (cors fresh_res))),
            logged (error_line e) (loaded 1000)))
  /\ (exists e,
         err_name e = "TypeError"
         /\ handler (H := host healthy)
              (post (JSObject [("email", JSNumber 12345);
                               ("tag", JSString "diy")]))
              fresh_res (loaded 1000)
            = (Returned (json server_error (status 500 (cors fresh_res))),
               logged (error_line e) (loaded 1000))).
Proof.
  split.
  - apply (malformed_post_is_500 (H := host healthy) (post JSUndefined)
             fresh_res (loaded 1000) eq_refl).
    left; reflexivity.
  - apply (malformed_post_is_500 (H := host healthy)
             (post (JSObject [("email", JSNumber 12345);
                              ("tag", JSString "diy")]))
             fresh_res (loaded 1000) eq_refl).
    right; right. exists (JSNumber 12345). repeat split.
Defined.

End Runs.

(** * The further theorems at work *)

Section MoreRuns.
Import Fixture.

(** An unknown tag is refused and nothing has changed. *)
Lemma refusals_change_nothing_witness :
  snd (handler (H := host healthy) (tag_request "anne2@x.com" "bogus")
         fresh_res warm) = warm.
Proof.
  apply (refusals_change_nothing (H := host healthy)
           (tag_request "anne2@x.com" "bogus") fresh_res warm
           (snd (handler (H := host healthy)
                   (tag_request "anne2@x.com" "bogus") fresh_res warm))
           (json invalid_tag (status 400 (KajabiTag.cors fresh_res))));
    [reflexivity | right; reflexivity].
Defined.

(** With a warm cache the invocation goes straight to the search. *)
Lemma warm_invocation_witness :
  cachedToken (snd (handler (H := host healthy)
                      (tag_request "anne2@x.com" "diy") fresh_res warm))
  = JSString "tok-1"
  /\ tokenExpiresAt (snd (handler (H := host healthy)
                            (tag_request "anne2@x.com" "diy") fresh_res warm))
     = 3301040%float
  /\ exists calls,
       fetched (snd (handler (H := host healthy)
                       (tag_request "anne2@x.com" "diy") fresh_res warm))
       = (calls ++ [])%list
       /\ ~ In TokenCall (map kind_of calls).
Proof.
  exact (warm_invocation (H := host healthy)
           (tag_request "anne2@x.com" "diy") fresh_res warm eq_refl).
Defined.

(** With a cold one it starts with the exchange. *)
Lemma cold_invocation_witness :
  exists later,
    fetched (snd (handler (H := host healthy)
                    (tag_request "anne2@x.com" "diy") fresh_res (loaded 1000)))
    = (later ++ [token_call (H := host healthy)])%list.
Proof.
  exact (cold_invocation (H := host healthy)
           (tag_request "anne2@x.com" "diy") fresh_res (loaded 1000)
           (JSString "anne2@x.com") (Own (JSString "tag-diy"))
           eq_refl eq_refl eq_refl).
Defined.

(** The search, the creation and the tag attachment all carry
    [Bearer tok-1]. *)
Lemma authorized_calls_witness :
  exists calls,
    fetched (snd (handler (H := host healthy)
                    (tag_request "anne2@x.com" "diy") fresh_res (loaded 1000)))
    = (calls ++ [token_call (H := host healthy)])%list
    /\ forall call,
         In call calls ->
         header "Authorization" (init_headers call) = Some "Bearer tok-1".
Proof.
  exact (authorized_calls (H := host healthy)
           (tag_request "anne2@x.com" "diy") fresh_res (loaded 1000)
           (snd (getAccessToken (H := host healthy) (loaded 1000)))
           (JSString "anne2@x.com") (JSString "tok-1")
           (Own (JSString "tag-diy")) "tok-1"
           eq_refl eq_refl eq_refl eq_refl).
Defined.

(** A 200: the tag call came last and was answered 200. *)
Lemma success_means_tagged_witness :
  exists email tagId bearer id response t w3,
    validate (H := host healthy)
      (body (tag_request "anne2@x.com" "diy")) = Accepted email tagId
    /\ @upstream (host healthy) (fetched w3) (clock w3)
         (tag_call bearer id tagId)
       = (Resolved response, t)
    /\ ok response = true
    /\ snd (handler (H := host healthy) (tag_request "anne2@x.com" "diy")
              fresh_res (loaded 1000))
       = after_fetch (tag_call bearer id tagId) t w3.
Proof.
  exact (success_means_tagged (H := host healthy)
           (tag_request "anne2@x.com" "diy") fresh_res (loaded 1000)
           (snd (handler (H := host healthy) (tag_request "anne2@x.com" "diy")
                   fresh_res (loaded 1000)))
           (json ok_true (status 200 (KajabiTag.cors fresh_res)))
           eq_refl eq_refl).
Defined.

(** The lifetime [{toString:1}] cannot be converted: the call throws,
    the new token is in the cache, the old expiry still with it. *)
Lemma throwing_exchange_witness :
  (exists e w',
      getAccessToken (H := host odd_lifetime) stale = (Thrown e, w')
      /\ cachedToken w' = JSString "tok-2"
      /\ cachedToken stale = JSString "tok-1")
  /\ tokenExpiresAt (snd (getAccessToken (H := host odd_lifetime) stale))
     = tokenExpiresAt stale.
Proof.
  split.
  - eexists; eexists. split; [reflexivity | split; reflexivity].
  - exact (proj1 (throwing_exchange_and_cache (H := host odd_lifetime) stale
                    (snd (getAccessToken (H := host odd_lifetime) stale))
                    (TypeError "Cannot convert object to primitive value")
                    eq_refl)).
Defined.

(** No [expires_in] in the answer: the token is stored and never served. *)
Lemma missing_lifetime_witness :
  exists w1,
    getAccessToken (H := host no_lifetime) (loaded 1000)
    = (Returned (JSString "tok-3"), w1)
    /\ cachedToken w1 = JSString "tok-3"
    /\ forall later,
         tokenExpiresAt later = tokenExpiresAt w1 ->
         cache_hit later = false
         /\ fetched (snd (getAccessToken (H := host no_lifetime) later))
            = token_call (H := host no_lifetime) :: fetched later.
Proof.
  exact (missing_lifetime_defeats_cache (H := host no_lifetime) (loaded 1000)
           (mkResponse 200 (BodyText (dq "{'access_token':'tok-3'}")))
           1040%float (dq "{'access_token':'tok-3'}")
           (JSObject [("access_token", JSString "tok-3")]) (JSString "tok-3")
           eq_refl eq_refl eq_refl eq_refl eq_refl eq_refl eq_refl).
Defined.

(** An entry that differs from the address only in the case of an
    accented letter is an exact match, so it cannot stand among the
    entries "before the first match". *)
Example accented_contact_matches :
  exact_match ANNE
    (JSObject [("id", JSString "7");
               ("attributes",
                JSObject [("email", JSString (String "228"%char "nne@x.com"))])])
  = true.
Proof. reflexivity. Qed.

(** [foo@bar.com] is found although [null] and [7] follow it. *)
Lemma first_match_wins_witness :
  fst (findContactByEmail (H := host ragged)
         (JSString "tok-1") (JSString "Foo@Bar.com") warm)
  = Returned (JSObject [("id", JSString "4");
                        ("attributes",
                         JSObject [("email", JSString "foo@bar.com")])]).
Proof.
  refine (f_equal fst
            (first_match_wins (H := host ragged)
               (JSString "tok-1") "tok-1" "Foo@Bar.com" ragged_text warm
               200%Z 2040%float _ _
               [JSObject [("id", JSString "3");
                          ("attributes",
                           JSObject [("email", JSString "food@bar.com")])]]
               [JSNull; JSNumber 7]
               eq_refl eq_refl (conj (Z.le_refl 200) eq_refl) eq_refl eq_refl
               _ _ eq_refl)).
  - repeat constructor. eexists; reflexivity.
  - repeat constructor.
Defined.

(** A contact with the email [null] before it: the search throws. *)
Lemma malformed_entry_witness :
  exists e,
    err_name e = "TypeError"
    /\ findContactByEmail (H := host broken)
         (JSString "tok-1") (JSString "Foo@Bar.com") warm
       = (Thrown e,
          after_fetch (search_call (H := host broken) "tok-1" "Foo@Bar.com")
            2040%float warm).
Proof.
  refine (malformed_entry_throws (H := host broken)
            (JSString "tok-1") "tok-1" "Foo@Bar.com" broken_text warm
            200%Z 2040%float _
            (JSObject [("id", JSString "5");
                       ("attributes", JSObject [("email", JSNull)])])
            [JSObject [("id", JSString "3");
                       ("attributes",
                        JSObject [("email", JSString "food@bar.com")])]]
            [JSObject [("id", JSString "4");
                       ("attributes",
                        JSObject [("email", JSString "foo@bar.com")])]]
            eq_refl eq_refl (conj (Z.le_refl 200) eq_refl) eq_refl eq_refl
            _ _ eq_refl).
  - repeat constructor. eexists; reflexivity.
  - repeat constructor.
Defined.

(** The tag endpoint answers 204 with an empty body: the caller gets a
    500, after four calls that all succeeded. *)
Lemma unparsed_tag_answer_witness :
  exists e,
    handler (H := host no_content) (tag_request "anne2@x.com" "diy")
      fresh_res (loaded 1000)
    = (Returned (json server_error (status 500 (KajabiTag.cors fresh_res))),
       logged (error_line e)
         (after_fetch
            (tag_call "tok-1" "18" (Own (JSString "tag-diy")))
            1160%float
            (snd (create_if_absent (H := host no_content)
                    (JSString "tok-1") (JSString "anne2@x.com") JSNull
                    (snd (findContactByEmail (H := host no_content)
                            (JSString "tok-1") (JSString "anne2@x.com")
                            (snd (getAccessToken (H := host no_content)
                                    (loaded 1000))))))))).
Proof.
  refine (unparsed_tag_answer_is_500 (H := host no_content)
            (tag_request "anne2@x.com" "diy") fresh_res (loaded 1000)
            _ _ _ (JSString "anne2@x.com") (JSString "tok-1") JSNull
            (JSObject [("id", JSString "18"); ("type", JSString "contacts");
                       ("attributes",
                        JSObject [("email", JSString "anne2@x.com")])])
            (JSString "18") (Own (JSString "tag-diy")) "tok-1" "18" ""
            204%Z 1160%float
            eq_refl eq_refl eq_refl eq_refl eq_refl eq_refl eq_refl eq_refl
            eq_refl _ eq_refl).
  split; [discriminate | reflexivity].
Defined.

(** The [diy] variable is unset: the tag [diy] is refused; [contractor]
    is set and passes, and so does [toString]. *)
Lemma invalid_tag_witness :
  fst (handler (H := partial_host) (tag_request "anne2@x.com" "diy")
         fresh_res (loaded 1000))
  = Returned (json invalid_tag (status 400 (KajabiTag.cors fresh_res)))
  /\ fst (handler (H := partial_host) (tag_request "anne2@x.com" "contractor")
            fresh_res (loaded 1000))
     <> Returned (json invalid_tag (status 400 (KajabiTag.cors fresh_res)))
  /\ fst (handler (H := partial_host) (tag_request "anne2@x.com" "toString")
            fresh_res (loaded 1000))
     <> Returned (json invalid_tag (status 400 (KajabiTag.cors fresh_res))).
Proof.
  split; [| split].
  - apply (proj2 (invalid_tag_iff (H := partial_host)
                    (tag_request "anne2@x.com" "diy") fresh_res (loaded 1000)
                    (JSString "anne2@x.com") (JSString "diy") "diy"
                    eq_refl eq_refl eq_refl eq_refl eq_refl eq_refl)).
    left; reflexivity.
  - intros Hr.
    destruct (proj1 (invalid_tag_iff (H := partial_host)
                       (tag_request "anne2@x.com" "contractor") fresh_res
                       (loaded 1000)
                       (JSString "anne2@x.com") (JSString "contractor")
                       "contractor"
                       eq_refl eq_refl eq_refl eq_refl eq_refl eq_refl) Hr)
      as [Hn | Hn]; discriminate Hn.
  - intros Hr.
    discriminate (proj1 (invalid_tag_iff (H := partial_host)
                           (tag_request "anne2@x.com" "toString") fresh_res
                           (loaded 1000)
                           (JSString "anne2@x.com") (JSString "toString")
                           "toString"
                           eq_refl eq_refl eq_refl eq_refl eq_refl eq_refl) Hr).
Defined.

End MoreRuns.
